(** * big3-record: the normalisation and derivation pipeline

    A shallow embedding of [src/timeRange.ts] (timestamp parsing),
    [src/sheetApi.ts] (row decoding), [src/ChartCard.tsx] (sort, forward-fill,
    per-point total and body-weight ratio) and [src/App.tsx] (latest row,
    latest body weight, personal bests and their ratios).

    JavaScript numbers are IEEE 754 binary64 values: they are modelled by
    Rocq's primitive [float], whose operations are the same binary64
    operations.  A [Date] with a valid time value is modelled by that time
    value, an integer number of milliseconds ([Z]); an invalid [Date] and
    [null] are [None].  Strings are sequences of code units below 256. *)

From Stdlib Require Import ZArith List String Ascii Bool Lia.
From Stdlib Require Import Permutation Sorted.
From Stdlib Require Import Floats.
Import ListNotations.

Set Warnings "-inexact-float".

(* ================================================================== *)
(** ** The parts of the ECMAScript runtime the program calls            *)
(* ================================================================== *)

Module JS.

Local Open Scope float_scope.

(** [Number.isFinite]: neither NaN nor an infinity. *)
Definition Number_isFinite (x : float) : bool := is_finite x.

(** The double nearest to an integer (exact below 2^53). *)
Definition Z2float (z : Z) : float := SF2Prim (binary_normalize prec emax z 0 false).

(** [Math.round]: the nearest integer, ties towards +infinity; the sign of a
    zero result is the sign of the argument. *)
Definition Math_round (x : float) : float :=
  match Prim2SF x with
  | S754_finite s m e =>
      if (0 <=? e)%Z then x
      else
        let k := (- e)%Z in
        let sm := if s then Zneg m else Zpos m in
        let n := Z.shiftr (2 * sm + 2 ^ k) (k + 1) in
        if (n =? 0)%Z then (if s then neg_zero else zero) else Z2float n
  | _ => x
  end.

(** [Math.max] over the spread of an array: starts from -infinity, NaN is
    contagious, and +0 is larger than -0. *)
Definition max_step (highest number : float) : float :=
  if is_nan highest then highest
  else if is_nan number then nan
  else if is_zero number && is_zero highest && get_sign highest && negb (get_sign number)
       then number
  else if highest <? number then number
  else highest.

Definition Math_max (values : list float) : float :=
  fold_left max_step values neg_infinity.

(** [Math.min] over the spread of an array: starts from +infinity, NaN is
    contagious, and -0 is smaller than +0. *)
Definition min_step (lowest number : float) : float :=
  if is_nan lowest then lowest
  else if is_nan number then nan
  else if is_zero number && is_zero lowest && get_sign number && negb (get_sign lowest)
       then number
  else if number <? lowest then number
  else lowest.

Definition Math_min (values : list float) : float :=
  fold_left min_step values infinity.

(** ToIntegerOrInfinity on a finite number: the fraction is dropped. *)
Definition truncZ (x : float) : Z :=
  match Prim2SF x with
  | S754_finite s m e =>
      let a := Z.shiftl (Zpos m) e in
      if s then (- a)%Z else a
  | _ => 0%Z
  end.

(** TimeClip, as applied by [new Date(ms)]: [None] is the NaN time value of
    an invalid Date. *)
Definition TimeClip (t : float) : option Z :=
  if negb (Number_isFinite t) then None
  else if 8.64e15 <? abs t then None
  else Some (truncZ t).

(** *** Strings *)

Definition is_empty (s : string) : bool :=
  match s with EmptyString => true | _ => false end.

(** WhiteSpace and LineTerminator code units below 256. *)
Definition is_ws (c : ascii) : bool :=
  let n := nat_of_ascii c in
  ((9 <=? n) && (n <=? 13) || (n =? 32) || (n =? 160))%nat.

Fixpoint trimStart (s : string) : string :=
  match s with
  | String c s' => if is_ws c then trimStart s' else s
  | EmptyString => EmptyString
  end.

Fixpoint trimEnd (s : string) : string :=
  match s with
  | EmptyString => EmptyString
  | String c s' =>
      match trimEnd s' with
      | EmptyString => if is_ws c then EmptyString else String c EmptyString
      | t => String c t
      end
  end.

(** [String.prototype.trim] *)
Definition trim (s : string) : string := trimEnd (trimStart s).

(** [s.replace(/\//g, "-")] *)
Fixpoint replace_slashes (s : string) : string :=
  match s with
  | EmptyString => EmptyString
  | String c s' =>
      String (if Ascii.eqb c "/"%char then "-"%char else c) (replace_slashes s')
  end.

(** [s.substring(n)]: the string from position [n] on, empty past the end. *)
Fixpoint substring_from (n : nat) (s : string) : string :=
  match n, s with
  | O, _ => s
  | S n', String _ s' => substring_from n' s'
  | S _, EmptyString => EmptyString
  end.

(** The first [n] code units of a string. *)
Fixpoint first_units (n : nat) (s : string) : string :=
  match n, s with
  | S n', String c s' => String c (first_units n' s')
  | _, _ => EmptyString
  end.

(** [s.slice(0, -k)]: the string without its last [k] code units, empty
    when it has no more than [k]. *)
Definition slice_off_end (k : nat) (s : string) : string :=
  first_units (String.length s - k) s.

(** *** StringToNumber, the conversion behind [Number(string)] *)

Definition digit_of (base : Z) (c : ascii) : option Z :=
  let n := Z.of_nat (nat_of_ascii c) in
  let d :=
    if (48 <=? n)%Z && (n <=? 57)%Z then Some (n - 48)%Z
    else if (97 <=? n)%Z && (n <=? 102)%Z then Some (n - 87)%Z
    else if (65 <=? n)%Z && (n <=? 70)%Z then Some (n - 55)%Z
    else None in
  match d with
  | Some v => if (v <? base)%Z then Some v else None
  | None => None
  end.

(** Reads the longest run of digits: the value read, how many digits, and
    what follows. *)
Fixpoint read_digits (base : Z) (s : string) (acc cnt : Z) : Z * Z * string :=
  match s with
  | String c s' =>
      match digit_of base c with
      | Some d => read_digits base s' (acc * base + d)%Z (cnt + 1)%Z
      | None => (acc, cnt, s)
      end
  | EmptyString => (acc, cnt, s)
  end.

Definition parse_exponent (s : string) : option Z :=
  let '(sg, s1) :=
    match s with
    | String "+"%char r => (1%Z, r)
    | String "-"%char r => ((-1)%Z, r)
    | _ => (1%Z, s)
    end in
  match read_digits 10 s1 0 0 with
  | (v, cnt, EmptyString) => if (0 <? cnt)%Z then Some (sg * v)%Z else None
  | _ => None
  end.

(** An unsigned StrDecimalLiteral as (digits, power of ten). *)
Definition parse_unsigned_decimal (s : string) : option (Z * Z) :=
  let '(ip, ic, r1) := read_digits 10 s 0 0 in
  let '(m, fc, r2) :=
    match r1 with
    | String "."%char r => read_digits 10 r ip 0
    | _ => (ip, 0%Z, r1)
    end in
  if (ic + fc =? 0)%Z then None
  else
    match r2 with
    | EmptyString => Some (m, (- fc)%Z)
    | String c r =>
        if Ascii.eqb c "e"%char || Ascii.eqb c "E"%char then
          match parse_exponent r with
          | Some x => Some (m, (x - fc)%Z)
          | None => None
          end
        else None
    end.

(** The double nearest to [m * 10^e10] (ties to even), with sign [neg]. *)
Definition decimal_to_float (neg : bool) (m e10 : Z) : float :=
  match m with
  | Zpos p =>
      if (0 <=? e10)%Z then
        SF2Prim (binary_normalize prec emax
                   (cond_Zopp neg (Zpos p * 10 ^ e10)) 0 false)
      else
        let '(q, e', l) :=
          SFdiv_core_binary prec emax (Zpos p) 0 (10 ^ (- e10)) 0 in
        SF2Prim (binary_round_aux prec emax neg q e' l)
  | _ => if neg then neg_zero else zero
  end.

Definition parse_radix (base : Z) (digits : string) : float :=
  match read_digits base digits 0 0 with
  | (v, cnt, EmptyString) => if (0 <? cnt)%Z then Z2float v else nan
  | _ => nan
  end.

Definition parse_signed_decimal (s : string) : float :=
  let '(neg, body) :=
    match s with
    | String "+"%char r => (false, r)
    | String "-"%char r => (true, r)
    | _ => (false, s)
    end in
  if String.eqb body "Infinity" then (if neg then neg_infinity else infinity)
  else
    match parse_unsigned_decimal body with
    | Some (m, e10) => decimal_to_float neg m e10
    | None => nan
    end.

Definition StringToNumber (s0 : string) : float :=
  match trim s0 with
  | EmptyString => zero
  | String "0"%char (String c r) as s =>
      if Ascii.eqb c "x"%char || Ascii.eqb c "X"%char then parse_radix 16 r
      else if Ascii.eqb c "o"%char || Ascii.eqb c "O"%char then parse_radix 8 r
      else if Ascii.eqb c "b"%char || Ascii.eqb c "B"%char then parse_radix 2 r
      else parse_signed_decimal s
  | s => parse_signed_decimal s
  end.

(** *** Dates *)

Definition msPerDay : Z := 86400000.

Definition is_leap (y : Z) : bool :=
  ((y mod 4 =? 0) && (negb (y mod 100 =? 0) || (y mod 400 =? 0)))%Z.

Definition days_in_month (y m : Z) : Z :=
  if (m =? 2)%Z then (if is_leap y then 29 else 28)%Z
  else if ((m =? 4) || (m =? 6) || (m =? 9) || (m =? 11))%Z then 30%Z
  else 31%Z.

(** Day number (days since 1970-01-01) of a proleptic Gregorian date. *)
Definition days_from_civil (y m d : Z) : Z :=
  let y' := (if m <=? 2 then y - 1 else y)%Z in
  let era := (y' / 400)%Z in
  let yoe := (y' - era * 400)%Z in
  let mp := (if 2 <? m then m - 3 else m + 9)%Z in
  let doy := ((153 * mp + 2) / 5 + d - 1)%Z in
  let doe := (yoe * 365 + yoe / 4 - yoe / 100 + doy)%Z in
  (era * 146097 + doe - 719468)%Z.

(** The inverse: (year, month, day) of a day number. *)
Definition civil_from_days (z0 : Z) : Z * Z * Z :=
  let z := (z0 + 719468)%Z in
  let era := (z / 146097)%Z in
  let doe := (z - era * 146097)%Z in
  let yoe := ((doe - doe / 1460 + doe / 36524 - doe / 146096) / 365)%Z in
  let doy := (doe - (365 * yoe + yoe / 4 - yoe / 100))%Z in
  let mp := ((5 * doy + 2) / 153)%Z in
  let d := (doy - (153 * mp + 2) / 5 + 1)%Z in
  let m := (if mp <? 10 then mp + 3 else mp - 9)%Z in
  ((if m <=? 2 then yoe + era * 400 + 1 else yoe + era * 400)%Z, m, d).

Definition digit_char (d : Z) : ascii := ascii_of_nat (48 + Z.to_nat (d mod 10)).

(** The [k] low decimal digits of [n], most significant first. *)
Fixpoint pad (k : nat) (n : Z) (acc : string) : string :=
  match k with
  | O => acc
  | S k' => pad k' (n / 10) (String (digit_char n) acc)
  end.

(** [Date.prototype.toISOString] on a valid time value:
    [YYYY-MM-DDTHH:mm:ss.sssZ], the year written with a sign and six digits
    outside 0..9999. *)
Definition toISOString (t : Z) : string :=
  let '(y, m, d) := civil_from_days (t / msPerDay) in
  let r := (t mod msPerDay)%Z in
  let tail :=
    String "-" (pad 2 m (String "-" (pad 2 d (String "T"
      (pad 2 (r / 3600000) (String ":" (pad 2 (r / 60000 mod 60) (String ":"
        (pad 2 (r / 1000 mod 60) (String "." (pad 3 (r mod 1000) "Z")))))))))))
  in
  if ((0 <=? y) && (y <=? 9999))%Z then pad 4 y tail
  else String (if (y <? 0)%Z then "-" else "+")%char (pad 6 (Z.abs y) tail).

(** The date-only form [YYYY-MM-DD] of the ECMAScript date-time string
    format: midnight UTC of a date that exists. *)
Definition parse_iso_date (s : string) : option Z :=
  match s with
  | String y1 (String y2 (String y3 (String y4 (String "-"
      (String m1 (String m2 (String "-" (String d1 (String d2 EmptyString))))))))) =>
      match digit_of 10 y1, digit_of 10 y2, digit_of 10 y3, digit_of 10 y4,
            digit_of 10 m1, digit_of 10 m2, digit_of 10 d1, digit_of 10 d2 with
      | Some a, Some b, Some c, Some e, Some f, Some g, Some h, Some i =>
          let y := (a * 1000 + b * 100 + c * 10 + e)%Z in
          let m := (f * 10 + g)%Z in
          let d := (h * 10 + i)%Z in
          if ((1 <=? m) && (m <=? 12) && (1 <=? d) && (d <=? days_in_month y m))%Z
          then Some (days_from_civil y m d * msPerDay)%Z
          else None
      | _, _, _, _, _, _, _, _ => None
      end
  | _ => None
  end.

(** [Date.parse]: a string in the date-only form has the value the standard
    fixes; what any other string yields is left to the engine ([legacy]),
    [None] being NaN. *)
Definition Date_parse (legacy : string -> option Z) (s : string) : option Z :=
  match parse_iso_date s with
  | Some t => Some t
  | None => legacy s
  end.

(** *** [Array.prototype.sort] *)

(** The sort is stable, and reads only the sign of what the comparator
    returns (NaN counts as +0); [cmp a b] is that sign.  With a consistent
    comparator the result is the stable ordering, computed here by insertion
    from the right. *)
Section ArraySort.
Context {A : Type}.
Variable cmp : A -> A -> Z.

Fixpoint insert (x : A) (l : list A) : list A :=
  match l with
  | [] => [x]
  | y :: l' => if (cmp x y <=? 0)%Z then x :: l else y :: insert x l'
  end.

Fixpoint Array_sort (l : list A) : list A :=
  match l with
  | [] => []
  | x :: l' => insert x (Array_sort l')
  end.
End ArraySort.

End JS.

Import JS.
Local Open Scope string_scope.

(* ================================================================== *)
(** ** src/timeRange.ts                                                 *)
(* ================================================================== *)

Module TimeRange.
Section Engine.
(** What [Date.parse] makes of a string outside the standard format. *)
Variable legacy : string -> option Z.

Local Open Scope float_scope.

(** [num >= 1e9 && num < 1e15] on a finite number *)
Definition is_epoch (num : float) : bool :=
  Number_isFinite num && (1e9 <=? num) && (num <? 1e15).

(** [num < 1e12 ? num * 1000 : num] *)
Definition epoch_ms (num : float) : float :=
  if num <? 1e12 then num * 1000 else num.

Definition parseTimestamp (ts : string) : option Z :=
  if is_empty ts then None
  else
    let trimmed := trim ts in
    if is_empty trimmed then None
    else
      let num := StringToNumber trimmed in
      if is_epoch num then TimeClip (epoch_ms num)
      else
        match Date_parse legacy trimmed with
        | Some d => Some d
        | None => Date_parse legacy (replace_slashes trimmed)
        end.
End Engine.
End TimeRange.

(* ================================================================== *)
(** ** src/sheetApi.ts                                                  *)
(* ================================================================== *)

Module SheetApi.

(** One log line (A: date, B: BP, C: SQ, D: DL, E: body weight); [None]
    is [null]. *)
Record LogRow := {
  timestamp : string;
  bp : option float;
  sq : option float;
  dl : option float;
  bodyWeight : option float
}.

(** The [string | number] of a cell's [v]. *)
Inductive cell_value :=
| VString (s : string)
| VNumber (n : float).

(** A gviz cell; [None] is a missing property. *)
Record GvizCell := {
  v : option cell_value;
  f : option string
}.

(** [Number(x)] *)
Definition ToNumber (x : cell_value) : float :=
  match x with
  | VString s => StringToNumber s
  | VNumber n => n
  end.

Definition is_empty_string (x : cell_value) : bool :=
  match x with
  | VString s => is_empty s
  | VNumber _ => false
  end.

Definition getCellNumber (c : option GvizCell) : option float :=
  match c with
  | None => None
  | Some cell =>
      match v cell with
      | None => None
      | Some x =>
          if is_empty_string x then None
          else
            let n := ToNumber x in
            if Number_isFinite n then Some n else None
      end
  end.

(** [text.substring(47).slice(0, -2)]: the JSON between the wrapper's
    prefix and suffix. *)
Definition unwrap (text : string) : string :=
  slice_off_end 2 (substring_from 47 text).

Section Engine.
(** Number::toString, the engine's shortest decimal form of a number. *)
Variable Number_toString : float -> string.

(** [String(x)] *)
Definition ToString (x : cell_value) : string :=
  match x with
  | VString s => s
  | VNumber n => Number_toString n
  end.

(** [new Date(ms).toISOString()]; [None] is the RangeError thrown on an
    invalid time value. *)
Definition Date_toISOString (ms : float) : option string :=
  match TimeClip ms with
  | Some t => Some (toISOString t)
  | None => None
  end.

(** The result is [None] when the call throws. *)
Definition getCellTimestamp (c : option GvizCell) : option string :=
  match c with
  | None => Some EmptyString
  | Some cell =>
      let raw :=
        match v cell with
        | Some x => Some x
        | None => option_map VString (f cell)
        end in
      match raw with
      | None => Some EmptyString
      | Some x =>
          if is_empty_string x then Some EmptyString
          else
            let num := ToNumber x in
            if TimeRange.is_epoch num then Date_toISOString (TimeRange.epoch_ms num)
            else
              match f cell, v cell with
              | Some s, _ => Some s
              | None, Some y => Some (ToString y)
              | None, None => Some "undefined"
              end
      end
  end.

(** [cells[i]]: out of range is [undefined]. *)
Definition cell_at (cells : list (option GvizCell)) (i : nat) : option GvizCell :=
  match nth_error cells i with
  | Some c => c
  | None => None
  end.

Definition decodeRow (cells : list (option GvizCell)) : option LogRow :=
  match getCellTimestamp (cell_at cells 0) with
  | Some ts =>
      Some {| timestamp := ts;
              bp := getCellNumber (cell_at cells 1);
              sq := getCellNumber (cell_at cells 2);
              dl := getCellNumber (cell_at cells 3);
              bodyWeight := getCellNumber (cell_at cells 4) |}
  | None => None
  end.

(** The body of the loop of [fetchLogData] over the rows from [i] on; a row
    is its [c], [None] when the property is missing ([row?.c ?? []]). *)
Fixpoint decodeRows (rows : list (option (list (option GvizCell))))
    : option (list LogRow) :=
  match rows with
  | [] => Some []
  | row :: rest =>
      match decodeRow (match row with Some cells => cells | None => [] end) with
      | Some decoded =>
          match decodeRows rest with
          | Some result => Some (decoded :: result)
          | None => None
          end
      | None => None
      end
  end.

(** [for (let i = 1; i < rows.length; i++)]: the first row is the header. *)
Definition decodeTable (rows : list (option (list (option GvizCell))))
    : option (list LogRow) :=
  decodeRows (tl rows).
End Engine.
End SheetApi.

Import SheetApi.

(* ================================================================== *)
(** ** src/ChartCard.tsx                                                *)
(* ================================================================== *)

Module ChartCard.

Local Open Scope float_scope.

Inductive NumericDataKey :=
| key_total | key_bp | key_sq | key_dl | key_bodyWeight.

(** [toNum]: a cell value as a number, [null] for an empty string or a
    value that is not finite. *)
Definition toNum (x : option cell_value) : option float :=
  match x with
  | None => None
  | Some y =>
      if is_empty_string y then None
      else
        let n := ToNumber y in
        if Number_isFinite n then Some n else None
  end.

(** A field of a [LogRow], seen as the [unknown] that [toNum] takes. *)
Definition field (x : option float) : option cell_value := option_map VNumber x.

(** [a ?? b] *)
Definition coalesce {A} (a b : option A) : option A :=
  match a with
  | Some _ => a
  | None => b
  end.

(** [ta - tb] as the sort reads it, a sign; [None] is the [Infinity] that
    stands for a timestamp that does not parse, and [Infinity - Infinity]
    is NaN, read as 0. *)
Definition time_diff (ta tb : option Z) : Z :=
  match ta, tb with
  | Some a, Some b => Z.sgn (a - b)
  | Some _, None => (-1)%Z
  | None, Some _ => 1%Z
  | None, None => 0%Z
  end.

(** The three [let] variables of the forward fill. *)
Record Last := { lastBp : option float; lastSq : option float; lastDl : option float }.

Definition no_last : Last := {| lastBp := None; lastSq := None; lastDl := None |}.

(** The body of the [map] callback: the state after the row, and the row
    emitted. *)
Definition fill_row (st : Last) (row : LogRow) : Last * LogRow :=
  let b := toNum (field (bp row)) in
  let s := toNum (field (sq row)) in
  let d := toNum (field (dl row)) in
  let st' := {| lastBp := match b with Some _ => b | None => lastBp st end;
                lastSq := match s with Some _ => s | None => lastSq st end;
                lastDl := match d with Some _ => d | None => lastDl st end |} in
  (st', {| timestamp := timestamp row;
           bp := coalesce b (lastBp st');
           sq := coalesce s (lastSq st');
           dl := coalesce d (lastDl st');
           bodyWeight := bodyWeight row |}).

Fixpoint fill_rows (st : Last) (rows : list LogRow) : list LogRow :=
  match rows with
  | [] => []
  | row :: rest =>
      let '(st', out) := fill_row st row in
      out :: fill_rows st' rest
  end.

Definition finite_or_null (x : option float) : option float :=
  match x with
  | Some n => if Number_isFinite n then Some n else None
  | None => None
  end.

(** [Math.round(x * 10) / 10] *)
Definition round1 (x : float) : float := Math_round (x * 10) / 10.

(** [Math.round(x * 100) / 100] *)
Definition round2 (x : float) : float := Math_round (x * 100) / 100.

(** An element of [chartData].  [pt_ratio] is the property
    [`${dataKey}Ratio`]: [None] when it is not set, [Some None] when it is
    [null]. *)
Record ChartPoint := {
  pt_timestamp : string;
  pt_bp : option float;
  pt_sq : option float;
  pt_dl : option float;
  pt_total : option float;
  pt_bodyWeight : option float;
  pt_ratio : option (option float)
}.

Definition in_RATIO_KEYS (k : NumericDataKey) : bool :=
  match k with
  | key_total | key_bp | key_sq | key_dl => true
  | key_bodyWeight => false
  end.

Definition is_bodyWeight (k : NumericDataKey) : bool :=
  match k with
  | key_bodyWeight => true
  | _ => false
  end.

Definition useRatio (dataKey : NumericDataKey) (weightRatio : bool) : bool :=
  weightRatio && in_RATIO_KEYS dataKey && negb (is_bodyWeight dataKey).

Definition chartPoint (dataKey : NumericDataKey) (weightRatio : bool)
    (row : LogRow) : ChartPoint :=
  let b := finite_or_null (bp row) in
  let s := finite_or_null (sq row) in
  let d := finite_or_null (dl row) in
  let tot :=
    match b, s, d with
    | Some x, Some y, Some z => Some (round1 (x + y + z))
    | _, _, _ => None
    end in
  let w := toNum (field (bodyWeight row)) in
  let raw :=
    match dataKey with
    | key_total => tot
    | key_bp => b
    | key_sq => s
    | key_dl => d
    | key_bodyWeight => w
    end in
  let ratio :=
    match w with
    | Some bw =>
        if useRatio dataKey weightRatio && (0 <? bw) then
          match raw with
          | Some r => if Number_isFinite r then Some (Some (round2 (r / bw))) else Some None
          | None => Some None
          end
        else None
    | None => None
    end in
  {| pt_timestamp := timestamp row;
     pt_bp := b; pt_sq := s; pt_dl := d;
     pt_total := tot;
     pt_bodyWeight := w;
     pt_ratio := ratio |}.

Definition Y_PADDING_BY_KEY (k : NumericDataKey) : float :=
  match k with
  | key_total => 5
  | key_bp | key_sq | key_dl => 2.5
  | key_bodyWeight => 1
  end.

Definition Y_PADDING_RATIO : float := 0.05.

Definition getDomainWithPadding (values : list float) (padding : float)
    : float * float :=
  match filter Number_isFinite values with
  | [] => (0, 100)
  | valid => (Math_min valid - padding, Math_max valid + padding)
  end.

(** [d[displayKey]]: the ratio property in ratio mode, the field itself
    otherwise; [None] is [null] or [undefined]. *)
Definition displayed (dataKey : NumericDataKey) (weightRatio : bool)
    (pt : ChartPoint) : option float :=
  if useRatio dataKey weightRatio then
    match pt_ratio pt with
    | Some (Some r) => Some r
    | _ => None
    end
  else
    match dataKey with
    | key_total => pt_total pt
    | key_bp => pt_bp pt
    | key_sq => pt_sq pt
    | key_dl => pt_dl pt
    | key_bodyWeight => pt_bodyWeight pt
    end.

(** [.filter(v => v != null && Number.isFinite(v))] *)
Fixpoint finite_values (l : list (option float)) : list float :=
  match l with
  | [] => []
  | Some x :: rest =>
      if Number_isFinite x then x :: finite_values rest else finite_values rest
  | None :: rest => finite_values rest
  end.

Section Engine.
Variable legacy : string -> option Z.

(** [parseTimestamp(row.timestamp)?.getTime() ?? Infinity] *)
Definition time_key (row : LogRow) : option Z :=
  TimeRange.parseTimestamp legacy (timestamp row).

Definition by_time (a b : LogRow) : Z := time_diff (time_key a) (time_key b).

Definition sortAndFillBpSqDl (rows : list LogRow) : list LogRow :=
  fill_rows no_last (Array_sort by_time rows).

Definition chartData (dataKey : NumericDataKey) (weightRatio : bool)
    (data : list LogRow) : list ChartPoint :=
  map (chartPoint dataKey weightRatio) (sortAndFillBpSqDl data).

(** The [domain] that the component hands to the vertical axis. *)
Definition domain (dataKey : NumericDataKey) (weightRatio : bool)
    (data : list LogRow) : float * float :=
  getDomainWithPadding
    (finite_values (map (displayed dataKey weightRatio)
                      (chartData dataKey weightRatio data)))
    (if useRatio dataKey weightRatio then Y_PADDING_RATIO
     else Y_PADDING_BY_KEY dataKey).
End Engine.
End ChartCard.

(* ================================================================== *)
(** ** src/App.tsx                                                      *)
(* ================================================================== *)

Module App.

Local Open Scope float_scope.

Record BestStats := {
  maxBP : option float;
  maxSQ : option float;
  maxDL : option float;
  total : option float
}.

Fixpoint last_of {A} (l : list A) : option A :=
  match l with
  | [] => None
  | [x] => Some x
  | _ :: l' => last_of l'
  end.

(** [rows.map(r => r[key]).filter(v => v != null && Number.isFinite(v))] *)
Fixpoint nums (key : LogRow -> option float) (rows : list LogRow) : list float :=
  match rows with
  | [] => []
  | r :: rest =>
      match key r with
      | Some x => if Number_isFinite x then x :: nums key rest else nums key rest
      | None => nums key rest
      end
  end.

(** [nums(key).length ? Math.max(...nums(key)) : null] *)
Definition best (key : LogRow -> option float) (rows : list LogRow) : option float :=
  match nums key rows with
  | [] => None
  | l => Some (Math_max l)
  end.

Definition bestStats (rows : list LogRow) : BestStats :=
  let b := best bp rows in
  let s := best sq rows in
  let d := best dl rows in
  {| maxBP := b; maxSQ := s; maxDL := d;
     total :=
       match b, s, d with
       | Some x, Some y, Some z => Some (ChartCard.round1 (x + y + z))
       | _, _, _ => None
       end |}.

Definition no_ratios : BestStats :=
  {| maxBP := None; maxSQ := None; maxDL := None; total := None |}.

Definition bestStatsRatios (stats : BestStats) (latestBodyWeight : option float)
    : BestStats :=
  match latestBodyWeight with
  | None => no_ratios
  | Some w =>
      if w <=? 0 then no_ratios
      else
        let ratio := option_map (fun x => ChartCard.round2 (x / w)) in
        {| maxBP := ratio (maxBP stats);
           maxSQ := ratio (maxSQ stats);
           maxDL := ratio (maxDL stats);
           total := ratio (total stats) |}
  end.

(** The first body weight, in the order given, that is finite and above 0. *)
Fixpoint first_body_weight (l : list (LogRow * Z)) : option float :=
  match l with
  | [] => None
  | (row, _) :: rest =>
      match bodyWeight row with
      | Some bw =>
          if Number_isFinite bw && (0 <? bw) then Some bw
          else first_body_weight rest
      | None => first_body_weight rest
      end
  end.

Section Engine.
Variable legacy : string -> option Z.

(** [rows.map(row => ({row, date})).filter(x => x.date != null)] *)
Fixpoint withDate (rows : list LogRow) : list (LogRow * Z) :=
  match rows with
  | [] => []
  | row :: rest =>
      match TimeRange.parseTimestamp legacy (timestamp row) with
      | Some date => (row, date) :: withDate rest
      | None => withDate rest
      end
  end.

Definition ascending (a b : LogRow * Z) : Z := Z.sgn (snd a - snd b).
Definition descending (a b : LogRow * Z) : Z := Z.sgn (snd b - snd a).

Definition getLatestRow (rows : list LogRow) : option LogRow :=
  match rows with
  | [] => None
  | _ =>
      match withDate rows with
      | [] => None
      | wd => option_map fst (last_of (Array_sort ascending wd))
      end
  end.

Definition latestBodyWeight (rows : list LogRow) : option float :=
  first_body_weight (Array_sort descending (withDate rows)).

(** The ratio summary the component shows. *)
Definition ratioSummary (rows : list LogRow) : BestStats :=
  bestStatsRatios (bestStats rows) (latestBodyWeight rows).
End Engine.
End App.

(* ================================================================== *)
(** ** Vocabulary of the statements                                     *)
(* ================================================================== *)

Module Vocab.

Local Open Scope float_scope.

(** [a] may stand before [b] under a comparator. *)
Definition before {A} (cmp : A -> A -> Z) (a b : A) : Prop := (cmp a b <= 0)%Z.

(** What the [Math.max] loop maintains: [acc] is at least every number
    seen so far, and is one of them once there is one. *)
Definition max_inv (seen : list float) (acc : float) : Prop :=
  is_nan acc = false /\
  (forall v, In v seen -> (v <=? acc) = true) /\
  (seen = [] /\ acc = neg_infinity \/ In acc seen).

(** A value that is there: neither [null] nor missing. *)
Definition present {A} (x : option A) : Prop := x <> None.

(** The engine's share of [Date.parse] in the examples: every string
    outside the date-only form is rejected.  The examples parse no such
    string, except a bare negative number. *)
Definition strict_engine : string -> option Z := fun _ => None.

(** The value of a lift in the latest of the rows [earlier] (oldest
    first) that has one. *)
Fixpoint most_recent (lift : LogRow -> option float) (earlier : list LogRow)
    : option float :=
  match earlier with
  | [] => None
  | row :: later =>
      ChartCard.coalesce (most_recent lift later)
        (ChartCard.toNum (ChartCard.field (lift row)))
  end.

(** The forward fill of one lift, from that lift's column alone: the
    row's own value, else the most recent earlier one. *)
Definition forward_filled (lift : LogRow -> option float)
    (earlier : list LogRow) (row : LogRow) : option float :=
  ChartCard.coalesce (ChartCard.toNum (ChartCard.field (lift row)))
    (most_recent lift earlier).

Definition finite_or_absent (x : option float) : Prop :=
  forall n, x = Some n -> Number_isFinite n = true.

(** The three remembered values are finite when there. *)
Definition last_finite (st : ChartCard.Last) : Prop :=
  finite_or_absent (ChartCard.lastBp st) /\
  finite_or_absent (ChartCard.lastSq st) /\
  finite_or_absent (ChartCard.lastDl st).

(** A row out of the forward fill: its lifts are finite when there. *)
Definition row_finite (row : LogRow) : Prop :=
  finite_or_absent (bp row) /\ finite_or_absent (sq row) /\ finite_or_absent (dl row).

(** The ratio of a point, when it is a number. *)
Definition ratio_value (pt : ChartCard.ChartPoint) : option float :=
  match ChartCard.pt_ratio pt with
  | Some (Some r) => Some r
  | _ => None
  end.

(** [base[dataKey]]: the field of a point that a chart shows. *)
Definition field_of (k : ChartCard.NumericDataKey) (pt : ChartCard.ChartPoint)
    : option float :=
  match k with
  | ChartCard.key_total => ChartCard.pt_total pt
  | ChartCard.key_bp => ChartCard.pt_bp pt
  | ChartCard.key_sq => ChartCard.pt_sq pt
  | ChartCard.key_dl => ChartCard.pt_dl pt
  | ChartCard.key_bodyWeight => ChartCard.pt_bodyWeight pt
  end.

(** The row reports a body weight above 0. *)
Definition own_weight_positive (row : LogRow) : Prop :=
  exists bw, bodyWeight row = Some bw /\ (0 <? bw) = true.

(** The ratio invariant as the specification words it: in ratio mode a
    point has a ratio exactly when its own row has a positive body
    weight. *)
Definition ratio_iff_own_weight (legacy : string -> option Z)
    (dataKey : ChartCard.NumericDataKey) (rows : list LogRow) : Prop :=
  Forall2 (fun row pt => present (ratio_value pt) <-> own_weight_positive row)
    (Array_sort (ChartCard.by_time legacy) rows)
    (ChartCard.chartData legacy dataKey true rows).

(** The row reports the finite body weight [w], above 0. *)
Definition weighed (row : LogRow) (w : float) : Prop :=
  bodyWeight row = Some w /\ Number_isFinite w = true /\ (0 <? w) = true.

(** [m] is the largest finite value of a lift over the rows, absent when
    no row has a finite one. *)
Definition is_max_of (lift : LogRow -> option float) (rows : list LogRow)
    (m : option float) : Prop :=
  match m with
  | None =>
      forall row x, In row rows -> lift row = Some x -> Number_isFinite x = false
  | Some best =>
      (exists row, In row rows /\ lift row = Some best /\ Number_isFinite best = true) /\
      forall row x, In row rows -> lift row = Some x -> Number_isFinite x = true ->
                    (x <=? best) = true
  end.

(** The rows of the summary scenario. *)
Definition summary_rows : list LogRow :=
  [ {| timestamp := EmptyString; bp := Some 100; sq := Some 0; dl := Some 0; bodyWeight := None |};
    {| timestamp := EmptyString; bp := Some 0; sq := Some 150; dl := Some 200; bodyWeight := None |} ].

(** The epoch property as the specification words it, at one input: a
    numeric string of magnitude in [1e9, 1e15) parses to the time that
    is the number itself in milliseconds, or in seconds below 1e12. *)
Definition reads_as_epoch (legacy : string -> option Z) (s : string) : Prop :=
  let n := StringToNumber s in
  Number_isFinite n = true -> (1e9 <=? abs n) = true -> (abs n <? 1e15) = true ->
  exists t, TimeRange.parseTimestamp legacy s = Some t /\
            Z2float t = (if abs n <? 1e12 then n * 1000 else n).

(** [c.v ?? c.f] *)
Definition raw_of (cell : GvizCell) : option cell_value :=
  match v cell with
  | Some x => Some x
  | None => option_map VString (f cell)
  end.

(** [String(c.f ?? c.v)] of a cell that has one of the two: the formatted
    string when there is one, else the value as a string. *)
Definition display_of (Number_toString : float -> string) (cell : GvizCell) : string :=
  match f cell, v cell with
  | Some s, _ => s
  | None, Some y => ToString Number_toString y
  | None, None => "undefined"
  end.

Definition is_digit (c : ascii) : bool :=
  let n := nat_of_ascii c in ((48 <=? n) && (n <=? 57))%nat.

(** [-MM-DDTHH:mm:ss.sssZ] *)
Definition is_iso_tail (s : string) : bool :=
  match s with
  | String "-" (String m1 (String m2 (String "-" (String d1 (String d2 (String "T"
      (String h1 (String h2 (String ":" (String n1 (String n2 (String ":"
        (String s1 (String s2 (String "." (String f1 (String f2 (String f3
          (String "Z" EmptyString))))))))))))))))))) =>
      is_digit m1 && is_digit m2 && is_digit d1 && is_digit d2 &&
      is_digit h1 && is_digit h2 && is_digit n1 && is_digit n2 &&
      is_digit s1 && is_digit s2 && is_digit f1 && is_digit f2 && is_digit f3
  | _ => false
  end.

(** An ISO-8601 date-time in UTC to the millisecond, the year either four
    digits or a sign and six digits. *)
Definition is_iso_ms (s : string) : bool :=
  match s with
  | String y1 (String y2 (String y3 (String y4 rest))) =>
      if Ascii.eqb y1 "+" || Ascii.eqb y1 "-" then
        match rest with
        | String y5 (String y6 (String y7 rest')) =>
            is_digit y2 && is_digit y3 && is_digit y4 && is_digit y5 &&
            is_digit y6 && is_digit y7 && is_iso_tail rest'
        | _ => false
        end
      else
        is_digit y1 && is_digit y2 && is_digit y3 && is_digit y4 && is_iso_tail rest
  | _ => false
  end.

(** [row?.c ?? []] *)
Definition cells_of (row : option (list (option GvizCell))) : list (option GvizCell) :=
  match row with
  | Some cells => cells
  | None => []
  end.

(** Every number of the row is finite when there. *)
Definition clean_row (row : LogRow) : Prop :=
  finite_or_absent (bp row) /\ finite_or_absent (sq row) /\
  finite_or_absent (dl row) /\ finite_or_absent (bodyWeight row).

(** What the [Math.min] loop maintains: [acc] is at most every number seen
    so far, and is one of them once there is one. *)
Definition min_inv (seen : list float) (acc : float) : Prop :=
  is_nan acc = false /\
  (forall v, In v seen -> (acc <=? v) = true) /\
  (seen = [] /\ acc = infinity \/ In acc seen).

(** What the sort and fill leaves of a row as it is. *)
Definition stamp (row : LogRow) : string * option float :=
  (timestamp row, bodyWeight row).

(** The row's timestamp parses to [k] ([None]: it does not parse). *)
Definition at_time (legacy : string -> option Z) (k : option Z) (row : LogRow) : bool :=
  match ChartCard.time_key legacy row, k with
  | Some a, Some b => (a =? b)%Z
  | None, None => true
  | _, _ => false
  end.

(** The exact value of a finite double, as [n * 2^e]. *)
Definition exact (x : float) : option (Z * Z) :=
  match Prim2SF x with
  | S754_zero _ => Some (0%Z, 0%Z)
  | S754_finite s m e => Some (if s then Zneg m else Zpos m, e)
  | _ => None
  end.

(** [k] is the integer nearest to [n * 2^e], the upper one of two equally
    near: [k - 1/2 <= n * 2^e < k + 1/2], with the denominators cleared. *)
Definition nearest_half_up (n e k : Z) : Prop :=
  ((0 <= e -> 2 * k - 1 <= 2 * (n * 2 ^ e) < 2 * k + 1) /\
   (e < 0 -> (2 * k - 1) * 2 ^ (- e) <= 2 * n < (2 * k + 1) * 2 ^ (- e)))%Z.

(** The double [w] is the integer [k] (a zero of either sign is 0). *)
Definition is_integer (w : float) (k : Z) : Prop :=
  match exact w with
  | Some (n, e) => ((0 <= e -> n * 2 ^ e = k) /\ (e < 0 -> n = k * 2 ^ (- e)))%Z
  | None => False
  end.

(** [r] is [x] rounded to the decimals of [scale] (10: one, 100: two): the
    integer nearest to the double [x * scale], divided by [scale]; a
    product that is not finite is left as it is. *)
Definition rounded_to (scale x r : float) : Prop :=
  match exact (x * scale) with
  | Some (n, e) =>
      exists k w, nearest_half_up n e k /\ is_integer w k /\ r = w / scale
  | None => r = x * scale
  end.

(** [ratio] is the best over the body weight [w], rounded to two decimals,
    and is there exactly when the best is. *)
Definition ratio_of (w : float) (best ratio : option float) : Prop :=
  match best with
  | None => ratio = None
  | Some x => exists r, ratio = Some r /\ rounded_to 100 (x / w) r
  end.

(** The last code unit of the string is no blank. *)
Fixpoint ends_solid (s : string) : bool :=
  match s with
  | EmptyString => false
  | String c EmptyString => negb (is_ws c)
  | String _ s' => ends_solid s'
  end.

Fixpoint all_digits (s : string) : bool :=
  match s with
  | EmptyString => true
  | String c s' => is_digit c && all_digits s'
  end.

(** [bw != null && Number.isFinite(bw) && bw > 0] on the row's body weight. *)
Definition has_weight (row : LogRow) : bool :=
  match bodyWeight row with
  | Some bw => Number_isFinite bw && (0 <? bw)%float
  | None => false
  end.

(** The date of the pair is the time [t]. *)
Definition dated_at (t : Z) (x : LogRow * Z) : bool := (snd x =? t)%Z.

Definition log (t : string) (b s d w : option float) : LogRow :=
  {| timestamp := t; bp := b; sq := s; dl := d; bodyWeight := w |}.

(** The rows of the forward-fill scenario. *)
Definition scenario_rows : list LogRow :=
  [ log "2024-01-01" (Some 80) None None None;
    log "2024-02-01" None (Some 100) None None;
    log "2024-03-01" (Some 85) None (Some 120) None ].

End Vocab.

Import Vocab.

(* ================================================================== *)
(** ** Facts about binary64 arithmetic                                  *)
(* ================================================================== *)

Module FloatFacts.

Local Open Scope Z_scope.

Lemma digits2_pos_bounds (p : positive) :
  2 ^ (Zpos (digits2_pos p) - 1) <= Zpos p < 2 ^ Zpos (digits2_pos p).
Proof.
  induction p as [p IH | p IH |]; cbn [digits2_pos].
  - rewrite Pos2Z.inj_succ.
    replace (Z.succ (Zpos (digits2_pos p)) - 1) with (Z.succ (Zpos (digits2_pos p) - 1)) by lia.
    rewrite !Z.pow_succ_r by lia. lia.
  - rewrite Pos2Z.inj_succ.
    replace (Z.succ (Zpos (digits2_pos p)) - 1) with (Z.succ (Zpos (digits2_pos p) - 1)) by lia.
    rewrite !Z.pow_succ_r by lia. lia.
  - cbn. lia.
Qed.

Lemma shr_1_m (r : shr_record) :
  0 <= shr_m r -> shr_m (shr_1 r) = Z.shiftr (shr_m r) 1.
Proof.
  destruct r as [m b s]; cbn [shr_m]. intros Hm.
  rewrite <- Z.div2_spec.
  destruct m as [| [p | p |] | p]; cbn; try reflexivity; lia.
Qed.

Lemma shr_1_nonneg (r : shr_record) : 0 <= shr_m r -> 0 <= shr_m (shr_1 r).
Proof.
  intros H. rewrite shr_1_m by exact H. apply Z.shiftr_nonneg. exact H.
Qed.

Lemma iter_shr_1_m (p : positive) :
  forall r, 0 <= shr_m r ->
    shr_m (iter_pos shr_1 p r) = Z.shiftr (shr_m r) (Zpos p) /\
    0 <= shr_m (iter_pos shr_1 p r).
Proof.
  induction p as [p IH | p IH |]; intros r Hr; cbn [iter_pos].
  - destruct (IH (shr_1 r) (shr_1_nonneg r Hr)) as [E1 P1].
    destruct (IH _ P1) as [E2 P2]. split; [| exact P2].
    rewrite E2, E1, shr_1_m by exact Hr.
    rewrite !Z.shiftr_shiftr by lia. f_equal. lia.
  - destruct (IH r Hr) as [E1 P1].
    destruct (IH _ P1) as [E2 P2]. split; [| exact P2].
    rewrite E2, E1. rewrite Z.shiftr_shiftr by lia. f_equal. lia.
  - split; [apply shr_1_m; exact Hr | apply shr_1_nonneg; exact Hr].
Qed.

Lemma round_nearest_even_cases (m : Z) (l : location) :
  round_nearest_even m l = m \/ round_nearest_even m l = m + 1.
Proof.
  destruct l as [| [| |]]; cbn; auto. destruct (Z.even m); auto.
Qed.

Lemma fexp_normal (x : Z) :
  -1074 <= x - 53 -> fexp prec emax x = x - 53.
Proof. unfold fexp, SpecFloat.emin, prec, emax. lia. Qed.

Lemma Zdigits2_bounds (m d : Z) :
  0 < d -> 2 ^ (d - 1) <= m < 2 ^ d -> Zdigits2 m = d.
Proof.
  intros Hd [Hlo Hhi].
  assert (0 < m) by (pose proof (Z.pow_pos_nonneg 2 (d - 1)); lia).
  destruct m as [| p | p]; try lia. cbn [Zdigits2].
  pose proof (digits2_pos_bounds p) as [B1 B2].
  set (k := Zpos (digits2_pos p)) in *.
  assert (k - 1 < d) by (apply (Z.pow_lt_mono_r_iff 2); lia).
  assert (d - 1 < k) by (apply (Z.pow_lt_mono_r_iff 2); lia).
  lia.
Qed.

Lemma binary_round_aux_finite (sx : bool) (M : positive) (ex : Z) :
  let d := Zpos (digits2_pos M) in
  54 <= d -> -1074 <= d + ex - 53 -> d + ex - 52 <= 971 ->
  exists m2 e2,
    binary_round_aux prec emax sx (Zpos M) ex loc_Exact = S754_finite sx m2 e2 /\
    d + ex - 53 <= e2 <= d + ex - 52.
Proof.
  intros d Hd Hlo Hhi.
  pose proof (digits2_pos_bounds M) as [B1 B2]. fold d in B1, B2.
  unfold binary_round_aux, shr_fexp. cbn [Zdigits2]. fold d.
  rewrite fexp_normal by lia.
  replace (d + ex - 53 - ex) with (d - 53) by lia.
  destruct (d - 53) as [| n | n] eqn:En; try lia.
  cbn [shr shr_record_of_loc].
  destruct (iter_shr_1_m n {| shr_m := Zpos M; shr_r := false; shr_s := false |})
    as [E1 P1]; [cbn; lia |].
  cbn [shr_m] in E1.
  destruct (iter_pos shr_1 n _) as [m1 r1 s1]. cbn [shr_m] in *.
  assert (Hm1 : 2 ^ 52 <= m1 < 2 ^ 53).
  { rewrite E1, Z.shiftr_div_pow2 by lia.
    assert (Hp : 0 < 2 ^ Zpos n) by (apply Z.pow_pos_nonneg; lia).
    assert (Hd1 : 2 ^ (d - 1) = 2 ^ 52 * 2 ^ Zpos n).
    { rewrite <- Z.pow_add_r by lia. f_equal. lia. }
    assert (Hd2 : 2 ^ d = 2 ^ 53 * 2 ^ Zpos n).
    { rewrite <- Z.pow_add_r by lia. f_equal. lia. }
    split.
    - apply Z.div_le_lower_bound; lia.
    - apply Z.div_lt_upper_bound; lia. }
  set (m2 := round_nearest_even m1 _).
  assert (Hm2 : 2 ^ 52 <= m2 <= 2 ^ 53).
  { subst m2. destruct (round_nearest_even_cases m1
      (loc_of_shr_record {| shr_m := m1; shr_r := r1; shr_s := s1 |})) as [-> | ->]; lia. }
  clearbody m2.
  destruct (Z.eq_dec m2 (2 ^ 53)) as [Heq | Hne].
  - subst m2. change (Zdigits2 (2 ^ 53)) with 54.
    rewrite fexp_normal by lia.
    replace (54 + (ex + Zpos n) - 53 - (ex + Zpos n)) with 1 by lia.
    cbn [shr iter_pos shr_1 shr_m Z.pow Z.pow_pos Pos.iter Z.mul Pos.mul].
    replace (ex + Zpos n + 1 <=? emax - prec) with true
      by (symmetry; apply Z.leb_le; unfold emax, prec; lia).
    eexists _, _. split; [reflexivity | lia].
  - rewrite (Zdigits2_bounds m2 53) by lia.
    rewrite fexp_normal by lia.
    replace (53 + (ex + Zpos n) - 53 - (ex + Zpos n)) with 0 by lia.
    cbn [shr shr_m].
    destruct m2 as [| p2 | p2]; try lia.
    replace (ex + Zpos n <=? emax - prec) with true
      by (symmetry; apply Z.leb_le; unfold emax, prec; lia).
    eexists _, _. split; [reflexivity | lia].
Qed.

Local Open Scope float_scope.

Lemma Prim2SF_1e9 : Prim2SF 1e9 = S754_finite false 8388608000000000 (-23).
Proof. vm_compute. reflexivity. Qed.
Lemma Prim2SF_1e12 : Prim2SF 1e12 = S754_finite false 8192000000000000 (-13).
Proof. vm_compute. reflexivity. Qed.
Lemma Prim2SF_1e15 : Prim2SF 1e15 = S754_finite false 8000000000000000 (-3).
Proof. vm_compute. reflexivity. Qed.
Lemma Prim2SF_1000 : Prim2SF 1000 = S754_finite false 8796093022208000 (-43).
Proof. vm_compute. reflexivity. Qed.
Lemma Prim2SF_max_time : Prim2SF 8.64e15 = S754_finite false 8640000000000000 0.
Proof. vm_compute. reflexivity. Qed.
Lemma Prim2SF_infinity : Prim2SF infinity = S754_infinity false.
Proof. vm_compute. reflexivity. Qed.

(** A finite double with a negative exponent is a valid time value. *)
Lemma finite_neg_exp_clips (x : float) (s : bool) (m : positive) (e : Z) :
  Prim2SF x = S754_finite s m e ->
  is_finite x = true /\ ((e < 0)%Z -> (8.64e15 <? abs x) = false).
Proof.
  intros Hx. split.
  - unfold is_finite, is_nan, is_infinity.
    rewrite !eqb_spec, abs_spec, Hx, Prim2SF_infinity.
    unfold SFeqb. cbn [SFabs SFcompare].
    destruct s; rewrite Z.compare_refl, Pos.compare_cont_refl; reflexivity.
  - intros He. rewrite ltb_spec, abs_spec, Hx, Prim2SF_max_time.
    unfold SFltb. cbn [SFabs SFcompare].
    destruct (Z.compare_spec 0 e); try lia; reflexivity.
Qed.

(** The numbers at or above 1e9 and below 1e15 are the positive normal
    doubles with an exponent between -23 and -3. *)
Lemma epoch_range_shape (num : float) :
  (1e9 <=? num) = true -> (num <? 1e15) = true ->
  exists m e, Prim2SF num = S754_finite false m e /\ (-23 <= e <= -3)%Z /\
              Zpos (digits2_pos m) = 53%Z.
Proof.
  rewrite leb_spec, ltb_spec, Prim2SF_1e9, Prim2SF_1e15.
  pose proof (Prim2SF_valid num) as Hv.
  destruct (Prim2SF num) as [s | s | | s m e]; unfold SFleb, SFltb; cbn [SFcompare].
  - discriminate.
  - destruct s; discriminate.
  - discriminate.
  - destruct s; [discriminate |].
    intros H1 H2. exists m, e. split; [reflexivity |].
    assert (He : (-23 <= e <= -3)%Z).
    { destruct (Z.compare_spec (-23) e); destruct (Z.compare_spec e (-3));
        try discriminate; lia. }
    split; [exact He |].
    cbn [valid_binary] in Hv. unfold bounded, canonical_mantissa in Hv.
    apply andb_true_iff in Hv. destruct Hv as [Hc _].
    apply Z.eqb_eq in Hc. unfold fexp, SpecFloat.emin, prec, emax in Hc. lia.
Qed.

(** Multiplying a number of the seconds range by 1000 stays far below the
    largest time value, and a number of the milliseconds range is below it
    already: the time value of [new Date(ms)] is never NaN. *)
Lemma epoch_ms_shape (num : float) :
  TimeRange.is_epoch num = true ->
  exists s m e, Prim2SF (TimeRange.epoch_ms num) = S754_finite s m e /\ (e < 0)%Z.
Proof.
  unfold TimeRange.is_epoch, TimeRange.epoch_ms. intros H.
  apply andb_true_iff in H. destruct H as [H H15].
  apply andb_true_iff in H. destruct H as [_ H9].
  destruct (epoch_range_shape num H9 H15) as (m & e & Hx & He & Hd).
  destruct (num <? 1e12) eqn:H12.
  - rewrite ltb_spec, Hx, Prim2SF_1e12 in H12.
    unfold SFltb in H12. cbn [SFcompare] in H12.
    assert (He' : (e <= -13)%Z).
    { destruct (Z.compare_spec e (-13)); try discriminate; lia. }
    rewrite mul_spec, Hx, Prim2SF_1000. unfold SF64mul. cbn [SFmul xorb].
    pose proof (digits2_pos_bounds m) as [B1 B2]. rewrite Hd in B1, B2.
    pose proof (digits2_pos_bounds (m * 8796093022208000)) as [C1 C2].
    set (D := Zpos (digits2_pos (m * 8796093022208000))) in *.
    rewrite Pos2Z.inj_mul in C1, C2.
    assert (HD : (105 <= D <= 106)%Z).
    { assert (104 < D)%Z by (apply (Z.pow_lt_mono_r_iff 2); lia).
      assert (D - 1 < 106)%Z by (apply (Z.pow_lt_mono_r_iff 2); lia).
      lia. }
    destruct (binary_round_aux_finite false (m * 8796093022208000) (e + -43))
      as (m2 & e2 & Hr & Hb); fold D; try lia.
    exists false, m2, e2. split; [exact Hr | lia].
  - exists false, m, e. split; [exact Hx | lia].
Qed.

Lemma epoch_ms_valid (num : float) :
  TimeRange.is_epoch num = true ->
  TimeClip (TimeRange.epoch_ms num) = Some (truncZ (TimeRange.epoch_ms num)).
Proof.
  intros H. destruct (epoch_ms_shape num H) as (s & m & e & Hx & He).
  destruct (finite_neg_exp_clips _ _ _ _ Hx) as [Hf Hb].
  unfold TimeClip, Number_isFinite. rewrite Hf, (Hb He). reflexivity.
Qed.

(** *** The order of binary64 values *)

Local Open Scope Z_scope.

Ltac cmp_cases :=
  repeat match goal with
  | H : context [Z.compare ?a ?b] |- _ => destruct (Z.compare_spec a b); try discriminate H
  | H : context [Pos.compare_cont Eq ?a ?b] |- _ =>
      change (Pos.compare_cont Eq a b) with (Pos.compare a b) in H;
      destruct (Pos.compare_spec a b); try discriminate H
  | |- context [Z.compare ?a ?b] => destruct (Z.compare_spec a b)
  | |- context [Pos.compare_cont Eq ?a ?b] =>
      change (Pos.compare_cont Eq a b) with (Pos.compare a b);
      destruct (Pos.compare_spec a b)
  end.

Lemma SFleb_ltb_trans (a b c : spec_float) :
  SFleb a b = true -> SFltb b c = true -> SFleb a c = true.
Proof.
  unfold SFleb, SFltb.
  destruct a as [sa | sa | | sa ma ea], b as [sb | sb | | sb mb eb],
           c as [sc | sc | | sc mc ec]; cbn [SFcompare];
    try discriminate; try reflexivity;
    repeat match goal with s : bool |- _ => destruct s end;
    try discriminate; try reflexivity;
    intros H1 H2; cmp_cases; cbn in *; try reflexivity; try discriminate; try lia.
Qed.

Lemma SFltb_total (a b : spec_float) :
  a <> S754_nan -> b <> S754_nan -> SFltb a b = false -> SFleb b a = true.
Proof.
  unfold SFleb, SFltb.
  destruct a as [sa | sa | | sa ma ea], b as [sb | sb | | sb mb eb];
    cbn [SFcompare]; try congruence;
    repeat match goal with s : bool |- _ => destruct s end;
    try discriminate; try reflexivity;
    intros _ _ H; cmp_cases; cbn in *; try reflexivity; try discriminate; try lia.
Qed.

Lemma SFleb_refl (a : spec_float) : a <> S754_nan -> SFleb a a = true.
Proof.
  unfold SFleb. destruct a as [s | s | | s m e]; cbn [SFcompare]; try congruence;
    intros _; try (destruct s; reflexivity).
  destruct s; rewrite Z.compare_refl, Pos.compare_cont_refl; reflexivity.
Qed.

Lemma SFltb_not_leb (a b : spec_float) : SFltb a b = true -> SFleb b a = false.
Proof.
  unfold SFleb, SFltb.
  destruct a as [sa | sa | | sa ma ea], b as [sb | sb | | sb mb eb];
    cbn [SFcompare]; try discriminate; try reflexivity;
    repeat match goal with s : bool |- _ => destruct s end;
    try discriminate; try reflexivity;
    intros H; cmp_cases; cbn in *; try reflexivity; try discriminate; try lia.
Qed.

Local Open Scope float_scope.

Lemma not_nan_sf (x : float) : is_nan x = false -> Prim2SF x <> S754_nan.
Proof.
  unfold is_nan. rewrite eqb_spec. intros H E. rewrite E in H. discriminate H.
Qed.

Lemma finite_not_nan (x : float) : is_finite x = true -> is_nan x = false.
Proof. unfold is_finite. destruct (is_nan x); [discriminate | reflexivity]. Qed.

Lemma finite_not_infinity (x : float) :
  is_finite x = true -> forall s, Prim2SF x <> S754_infinity s.
Proof.
  unfold is_finite, is_infinity. rewrite eqb_spec, abs_spec, Prim2SF_infinity.
  intros H s E. rewrite E in H. cbn in H.
  rewrite orb_true_r in H. discriminate H.
Qed.

Lemma leb_ltb_trans (a b c : float) :
  (a <=? b) = true -> (b <? c) = true -> (a <=? c) = true.
Proof. rewrite !leb_spec, ltb_spec. apply SFleb_ltb_trans. Qed.

Lemma ltb_false_leb (a b : float) :
  is_nan a = false -> is_nan b = false -> (a <? b) = false -> (b <=? a) = true.
Proof.
  intros Ha Hb. rewrite leb_spec, ltb_spec.
  apply SFltb_total; apply not_nan_sf; assumption.
Qed.

Lemma leb_refl (a : float) : is_nan a = false -> (a <=? a) = true.
Proof. intros Ha. rewrite leb_spec. apply SFleb_refl, not_nan_sf, Ha. Qed.

Lemma ltb_leb_false (a b : float) : (a <? b) = true -> (b <=? a) = false.
Proof. rewrite leb_spec, ltb_spec. apply SFltb_not_leb. Qed.

Lemma is_zero_sf (x : float) : is_zero x = true -> exists s, Prim2SF x = S754_zero s.
Proof.
  unfold is_zero. rewrite eqb_spec.
  replace (Prim2SF zero) with (S754_zero false) by (vm_compute; reflexivity).
  unfold SFeqb. destruct (Prim2SF x) as [s | s | | s m e]; cbn [SFcompare].
  - intros _. exists s. reflexivity.
  - destruct s; discriminate.
  - discriminate.
  - destruct s; discriminate.
Qed.

(** Below a zero is below the other zero. *)
Lemma leb_zero_zero (v a b : float) :
  is_zero a = true -> is_zero b = true -> (v <=? a) = true -> (v <=? b) = true.
Proof.
  intros Ha Hb. destruct (is_zero_sf a Ha) as [sa Ea], (is_zero_sf b Hb) as [sb Eb].
  rewrite !leb_spec, Ea, Eb. unfold SFleb.
  destruct (Prim2SF v) as [s | s | | s m e]; cbn [SFcompare]; auto.
Qed.

Lemma neg_infinity_ltb_finite (x : float) :
  is_finite x = true -> (neg_infinity <? x) = true.
Proof.
  intros Hx. pose proof (not_nan_sf x (finite_not_nan x Hx)) as Hn.
  pose proof (finite_not_infinity x Hx) as Hi.
  rewrite ltb_spec.
  replace (Prim2SF neg_infinity) with (S754_infinity true) by (vm_compute; reflexivity).
  unfold SFltb. destruct (Prim2SF x) as [s | s | | s m e]; cbn [SFcompare];
    try reflexivity; [exfalso; apply (Hi s); reflexivity | congruence].
Qed.

(** *** Whole numbers *)

Local Open Scope Z_scope.

Lemma pos_iter_xO (k p : positive) : Zpos (Pos.iter xO p k) = Zpos p * 2 ^ Zpos k.
Proof.
  revert p. induction k as [| k IH] using Pos.peano_ind; intros p.
  - cbn. lia.
  - rewrite Pos.iter_succ, Pos2Z.inj_succ, Z.pow_succ_r by lia.
    rewrite Pos2Z.inj_xO, IH. lia.
Qed.

(** Shifting out bits that are all zero leaves no remainder behind. *)
Lemma iter_shr_1_exact (p : positive) :
  forall q, 0 <= q ->
    iter_pos shr_1 p {| shr_m := q * 2 ^ Zpos p; shr_r := false; shr_s := false |}
    = {| shr_m := q; shr_r := false; shr_s := false |}.
Proof.
  assert (H1 : forall q, 0 <= q ->
            shr_1 {| shr_m := q * 2; shr_r := false; shr_s := false |}
            = {| shr_m := q; shr_r := false; shr_s := false |}).
  { intros q Hq. rewrite Z.mul_comm. destruct q as [| q | q]; [reflexivity | reflexivity | lia]. }
  induction p as [p IH | p IH |]; intros q Hq; cbn [iter_pos].
  - replace (q * 2 ^ Zpos p~1) with (((q * 2 ^ Zpos p) * 2 ^ Zpos p) * 2).
    + assert (0 <= 2 ^ Zpos p) by (apply Z.pow_nonneg; lia).
      rewrite H1 by nia. rewrite IH by nia. apply IH, Hq.
    + assert (E : 2 ^ Zpos p~1 = 2 ^ Zpos p * 2 ^ Zpos p * 2).
      { replace (Zpos p~1) with (Zpos p + Zpos p + 1) by lia.
        rewrite !Z.pow_add_r by lia. reflexivity. }
      rewrite E. ring.
  - replace (q * 2 ^ Zpos p~0) with ((q * 2 ^ Zpos p) * 2 ^ Zpos p).
    + assert (0 <= 2 ^ Zpos p) by (apply Z.pow_nonneg; lia).
      rewrite IH by nia. apply IH, Hq.
    + assert (E : 2 ^ Zpos p~0 = 2 ^ Zpos p * 2 ^ Zpos p).
      { rewrite <- Z.pow_add_r by lia. f_equal. lia. }
      rewrite E. ring.
  - change (2 ^ 1) with 2. apply H1, Hq.
Qed.

(** A mantissa of 53 bits with an exponent in range needs no rounding. *)
Lemma binary_round_aux_exact (sx : bool) (m : positive) (e : Z) :
  Zpos (digits2_pos m) = 53 -> -1074 <= e <= 971 ->
  binary_round_aux prec emax sx (Zpos m) e loc_Exact = S754_finite sx m e.
Proof.
  intros Hd He. unfold binary_round_aux, shr_fexp. cbn [Zdigits2].
  rewrite Hd, fexp_normal by lia.
  replace (53 + e - 53 - e) with 0 by lia.
  cbn [shr shr_record_of_loc shr_m loc_of_shr_record round_nearest_even Zdigits2].
  rewrite Hd, fexp_normal by lia.
  replace (53 + e - 53 - e) with 0 by lia.
  cbn [shr shr_record_of_loc shr_m].
  replace (e <=? emax - prec) with true
    by (symmetry; apply Z.leb_le; unfold emax, prec; lia).
  reflexivity.
Qed.

Lemma valid_53 (s : bool) (m : positive) (e : Z) :
  Zpos (digits2_pos m) = 53 -> -1074 <= e <= 971 ->
  valid_binary (S754_finite s m e) = true.
Proof.
  intros Hd He. cbn [SpecFloat.valid_binary]. unfold bounded, canonical_mantissa.
  rewrite Hd, fexp_normal by lia.
  apply andb_true_iff. split; [apply Z.eqb_eq; lia |].
  apply Z.leb_le. unfold emax, prec. lia.
Qed.

(** A whole number below 2^53 is a double, with nothing rounded off. *)
Lemma Z2float_shape (z : Z) :
  0 < z < 2 ^ 53 ->
  exists m e, Prim2SF (Z2float z) = S754_finite false m e /\
              Zpos (digits2_pos m) = 53 /\ -52 <= e <= 0 /\
              Zpos m = z * 2 ^ (- e).
Proof.
  intros Hz. destruct z as [| p | p]; try lia.
  unfold Z2float. cbn [binary_normalize]. unfold binary_round.
  pose proof (digits2_pos_bounds p) as [B1 B2].
  set (d := Zpos (digits2_pos p)) in *.
  assert (Hd : 1 <= d <= 53).
  { split; [subst d; lia |].
    assert (d - 1 < 53) by (apply (Z.pow_lt_mono_r_iff 2); lia). lia. }
  rewrite fexp_normal by lia. unfold shl_align.
  replace (d + 0 - 53 - 0) with (d - 53) by lia.
  destruct (d - 53) as [| k | k] eqn:Ek; try lia.
  - assert (d = 53) by lia.
    rewrite binary_round_aux_exact by lia.
    rewrite Prim2SF_SF2Prim by (apply valid_53; lia).
    exists p, 0. repeat split; try lia.
  - assert (Hm : Zpos (Pos.iter xO p k) = Zpos p * 2 ^ Zpos k) by apply pos_iter_xO.
    assert (Hk : Zpos k = 53 - d) by lia.
    assert (Hdig : Zpos (digits2_pos (Pos.iter xO p k)) = 53).
    { apply (Zdigits2_bounds (Zpos (Pos.iter xO p k)) 53); [lia |].
      rewrite Hm, Hk.
      assert (E1 : 2 ^ (53 - 1) = 2 ^ (d - 1) * 2 ^ (53 - d))
        by (rewrite <- Z.pow_add_r by lia; f_equal; lia).
      assert (E2 : 2 ^ 53 = 2 ^ d * 2 ^ (53 - d))
        by (rewrite <- Z.pow_add_r by lia; f_equal; lia).
      assert (0 < 2 ^ (53 - d)) by (apply Z.pow_pos_nonneg; lia).
      rewrite E1, E2. nia. }
    replace (d + 0 - 53) with (d - 53) by lia.
    rewrite binary_round_aux_exact by (try exact Hdig; lia).
    rewrite Prim2SF_SF2Prim by (apply valid_53; [exact Hdig | lia]).
    exists (Pos.iter xO p k), (d - 53). repeat split; try lia; try exact Hdig.
    rewrite Hm. f_equal. f_equal. lia.
Qed.

(** A whole number of seconds times 1000 is that many milliseconds, with
    nothing rounded off. *)
Lemma seconds_to_ms_exact (n : float) (m : positive) (e z : Z) :
  Prim2SF n = S754_finite false m e -> Zpos (digits2_pos m) = 53 ->
  -23 <= e <= -13 -> Zpos m = z * 2 ^ (- e) ->
  truncZ (n * 1000)%float = z * 1000.
Proof.
  intros Hx Hd He Hm.
  unfold truncZ. rewrite mul_spec, Hx, Prim2SF_1000. unfold SF64mul. cbn [SFmul xorb].
  pose proof (digits2_pos_bounds m) as [B1 B2]. rewrite Hd in B1, B2.
  pose proof (digits2_pos_bounds (m * 8796093022208000)) as [C1 C2].
  unfold binary_round_aux, shr_fexp. cbn [Zdigits2].
  set (D := Zpos (digits2_pos (m * 8796093022208000))) in *.
  rewrite Pos2Z.inj_mul in C1, C2.
  assert (HD : 105 <= D <= 106).
  { assert (104 < D) by (apply (Z.pow_lt_mono_r_iff 2); lia).
    assert (D - 1 < 106) by (apply (Z.pow_lt_mono_r_iff 2); lia).
    lia. }
  rewrite fexp_normal by lia.
  replace (D + (e + -43) - 53 - (e + -43)) with (D - 53) by lia.
  destruct (D - 53) as [| k | k] eqn:Ek; try lia.
  cbn [shr shr_record_of_loc].
  set (j := 43 - e - Zpos k).
  assert (Hj : 0 <= j) by (subst j; lia).
  set (Q := z * 1000 * 2 ^ j).
  assert (Hz : 0 < z).
  { assert (0 < 2 ^ (- e)) by (apply Z.pow_pos_nonneg; lia). nia. }
  assert (Hpj : 0 < 2 ^ j) by (apply Z.pow_pos_nonneg; lia).
  assert (HM : Zpos (m * 8796093022208000) = Q * 2 ^ Zpos k).
  { rewrite Pos2Z.inj_mul, Hm. subst Q.
    change 8796093022208000 with (1000 * 2 ^ 43).
    replace (z * 1000 * 2 ^ j * 2 ^ Zpos k) with (z * 1000 * (2 ^ j * 2 ^ Zpos k)) by ring.
    rewrite <- Z.pow_add_r by lia.
    replace (z * 2 ^ (- e) * (1000 * 2 ^ 43)) with (z * 1000 * (2 ^ (- e) * 2 ^ 43)) by ring.
    rewrite <- Z.pow_add_r by lia. do 2 f_equal. subst j. lia. }
  rewrite HM, iter_shr_1_exact by (subst Q; nia).
  cbn [shr_m loc_of_shr_record round_nearest_even].
  assert (HQ : 2 ^ 52 <= Q < 2 ^ 53).
  { rewrite Pos2Z.inj_mul in HM. rewrite HM in C1, C2.
    assert (Hk : Zpos k = D - 53) by lia.
    assert (E1 : 2 ^ (D - 1) = 2 ^ 52 * 2 ^ Zpos k)
      by (rewrite <- Z.pow_add_r by lia; f_equal; lia).
    assert (E2 : 2 ^ D = 2 ^ 53 * 2 ^ Zpos k)
      by (rewrite <- Z.pow_add_r by lia; f_equal; lia).
    assert (0 < 2 ^ Zpos k) by (apply Z.pow_pos_nonneg; lia).
    rewrite E1 in C1. rewrite E2 in C2. nia. }
  rewrite (Zdigits2_bounds Q 53) by lia.
  rewrite fexp_normal by lia.
  replace (53 + (e + -43 + Zpos k) - 53 - (e + -43 + Zpos k)) with 0 by lia.
  cbn [shr shr_record_of_loc shr_m].
  assert (HQdef : Q = z * 1000 * 2 ^ j) by reflexivity.
  clearbody Q. destruct Q as [| q | q]; try lia.
  replace (e + -43 + Zpos k <=? emax - prec) with true
    by (symmetry; apply Z.leb_le; unfold emax, prec; lia).
  rewrite Z.shiftl_div_pow2 by lia.
  replace (- (e + -43 + Zpos k)) with j by (subst j; lia).
  rewrite HQdef. apply Z.div_mul. lia.
Qed.

Lemma truncZ_whole (n : float) (m : positive) (e z : Z) :
  Prim2SF n = S754_finite false m e -> e <= 0 -> Zpos m = z * 2 ^ (- e) ->
  truncZ n = z.
Proof.
  intros Hx He Hm. unfold truncZ. rewrite Hx.
  rewrite Z.shiftl_div_pow2, Hm by lia.
  apply Z.div_mul. assert (0 < 2 ^ (- e)) by (apply Z.pow_pos_nonneg; lia). lia.
Qed.

Ltac pow2_value H :=
  match type of H with
  | context [2 ^ ?x] => let v := eval vm_compute in (2 ^ x) in change (2 ^ x) with v in H
  end.

(** A whole number of the epoch range: below 10^12 it is read as seconds
    and gives that many thousand milliseconds, from 10^12 on it is the
    milliseconds themselves. *)
Lemma whole_epoch_ms (z : Z) :
  TimeRange.is_epoch (Z2float z) = true -> 10 ^ 9 <= z < 10 ^ 15 ->
  truncZ (TimeRange.epoch_ms (Z2float z)) = if z <? 10 ^ 12 then z * 1000 else z.
Proof.
  intros Hep Hz.
  change (10 ^ 9) with 1000000000 in Hz. change (10 ^ 15) with 1000000000000000 in Hz.
  change (10 ^ 12) with 1000000000000.
  destruct (Z2float_shape z) as (m & e & Hx & Hd & He & Hm);
    [change (2 ^ 53) with 9007199254740992; lia |].
  unfold TimeRange.is_epoch in Hep.
  apply andb_true_iff in Hep. destruct Hep as [Hep H15].
  apply andb_true_iff in Hep. destruct Hep as [_ H9].
  destruct (epoch_range_shape _ H9 H15) as (m' & e' & Hx' & He' & _).
  rewrite Hx in Hx'. injection Hx' as <- <-.
  pose proof (digits2_pos_bounds m) as [B1 B2]. rewrite Hd in B1, B2.
  change (2 ^ 53) with 9007199254740992 in B2.
  change (2 ^ (53 - 1)) with 4503599627370496 in B1.
  unfold TimeRange.epoch_ms.
  destruct (Z2float z <? 1e12)%float eqn:H12;
    rewrite ltb_spec, Hx, Prim2SF_1e12 in H12; unfold SFltb in H12;
    cbn [SFcompare] in H12;
    (destruct (PosDef.Pos.compare_cont Eq m 8192000000000000) eqn:E;
     [ apply Pos.compare_eq_iff in E; apply (f_equal Zpos) in E
     | apply Pos.compare_lt_iff in E; apply Pos2Z.pos_lt_pos in E
     | apply Pos.compare_gt_iff in E; apply Pos2Z.pos_lt_pos in E ]);
    destruct (Z.compare_spec e (-13)) as [He13 | He13 | He13]; try discriminate H12.
  all: try (rewrite (seconds_to_ms_exact _ m e z Hx Hd) by (try exact Hm; lia)).
  all: try (rewrite (truncZ_whole _ m e z Hx) by (try exact Hm; lia)).
  all: match goal with
       | |- _ = (if ?b then _ else _) =>
           let Hb := fresh "Hb" in
           destruct b eqn:Hb; [apply Z.ltb_lt in Hb | apply Z.ltb_ge in Hb];
           try reflexivity; exfalso
       end.
  all: assert (Hc : e = -23 \/ e = -22 \/ e = -21 \/ e = -20 \/ e = -19 \/ e = -18 \/
                 e = -17 \/ e = -16 \/ e = -15 \/ e = -14 \/ e = -13 \/ e = -12 \/
                 e = -11 \/ e = -10 \/ e = -9 \/ e = -8 \/ e = -7 \/ e = -6 \/
                 e = -5 \/ e = -4 \/ e = -3) by lia.
  all: clear H9 H15 Hx H12 Hd.
  all: repeat (destruct Hc as [-> | Hc]); try subst e; pow2_value Hm; lia.
Qed.

(** *** [Math.round] and the rounding to decimals *)

Lemma valid_mantissa (x : float) (s : bool) (m : positive) (e : Z) :
  Prim2SF x = S754_finite s m e -> Zpos m < 2 ^ 53.
Proof.
  intros Hx. pose proof (Prim2SF_valid x) as Hv. rewrite Hx in Hv.
  cbn [SpecFloat.valid_binary] in Hv. unfold bounded, canonical_mantissa in Hv.
  apply andb_true_iff in Hv. destruct Hv as [Hc _]. apply Z.eqb_eq in Hc.
  pose proof (digits2_pos_bounds m) as [_ B].
  set (d := Zpos (digits2_pos m)) in *.
  assert (Hd : d <= 53).
  { unfold fexp, SpecFloat.fexp, emin in Hc. unfold prec, emax in Hc. lia. }
  apply (Z.lt_le_trans _ _ _ B). apply Z.pow_le_mono_r; lia.
Qed.

(** A whole number below 2^53 in absolute value is a double, of either
    sign, with nothing rounded off. *)
Lemma Z2float_signed_shape (s : bool) (p : positive) :
  Zpos p < 2 ^ 53 ->
  exists m e, Prim2SF (Z2float (if s then Zneg p else Zpos p)) = S754_finite s m e /\
              -52 <= e <= 0 /\ Zpos m = Zpos p * 2 ^ (- e).
Proof.
  intros Hz.
  assert (E : Z2float (if s then Zneg p else Zpos p)
              = SF2Prim (binary_round prec emax s p 0)) by (destruct s; reflexivity).
  rewrite E. unfold binary_round.
  pose proof (digits2_pos_bounds p) as [B1 B2].
  set (d := Zpos (digits2_pos p)) in *.
  assert (Hd : 1 <= d <= 53).
  { split; [subst d; lia |].
    assert (d - 1 < 53) by (apply (Z.pow_lt_mono_r_iff 2); lia). lia. }
  rewrite fexp_normal by lia. unfold shl_align.
  replace (d + 0 - 53 - 0) with (d - 53) by lia.
  destruct (d - 53) as [| k | k] eqn:Ek; try lia.
  - assert (d = 53) by lia.
    rewrite binary_round_aux_exact by lia.
    rewrite Prim2SF_SF2Prim by (apply valid_53; lia).
    exists p, 0. repeat split; try lia.
  - assert (Hm : Zpos (Pos.iter xO p k) = Zpos p * 2 ^ Zpos k) by apply pos_iter_xO.
    assert (Hk : Zpos k = 53 - d) by lia.
    assert (Hdig : Zpos (digits2_pos (Pos.iter xO p k)) = 53).
    { apply (Zdigits2_bounds (Zpos (Pos.iter xO p k)) 53); [lia |].
      rewrite Hm, Hk.
      assert (E1 : 2 ^ (53 - 1) = 2 ^ (d - 1) * 2 ^ (53 - d))
        by (rewrite <- Z.pow_add_r by lia; f_equal; lia).
      assert (E2 : 2 ^ 53 = 2 ^ d * 2 ^ (53 - d))
        by (rewrite <- Z.pow_add_r by lia; f_equal; lia).
      assert (0 < 2 ^ (53 - d)) by (apply Z.pow_pos_nonneg; lia).
      rewrite E1, E2. nia. }
    replace (d + 0 - 53) with (d - 53) by lia.
    rewrite binary_round_aux_exact by (try exact Hdig; lia).
    rewrite Prim2SF_SF2Prim by (apply valid_53; [exact Hdig | lia]).
    exists (Pos.iter xO p k), (d - 53). repeat split; try lia.
    rewrite Hm. f_equal. f_equal. lia.
Qed.

Lemma Z2float_is_integer (k : Z) :
  k <> 0 -> - 2 ^ 53 < k < 2 ^ 53 -> is_integer (Z2float k) k.
Proof.
  intros Hk Hb. unfold is_integer, exact.
  destruct k as [| p | p]; [congruence | |].
  - destruct (Z2float_signed_shape false p) as (m & e & Hx & He & Hm); [lia |].
    cbv iota in Hx. rewrite Hx. split; intros H.
    + assert (e = 0) by lia. subst e. change (2 ^ (- 0)) with 1 in Hm.
      change (2 ^ 0) with 1. lia.
    + exact Hm.
  - destruct (Z2float_signed_shape true p) as (m & e & Hx & He & Hm); [lia |].
    cbv iota in Hx. rewrite Hx. split; intros H.
    + assert (e = 0) by lia. subst e. change (2 ^ (- 0)) with 1 in Hm.
      change (2 ^ 0) with 1. lia.
    + change (Zneg m) with (- Zpos m). change (Zneg p) with (- Zpos p).
      rewrite Hm. ring.
Qed.

(** [Math.round] gives the nearest integer, the upper one of two. *)
Lemma Math_round_nearest (y : float) :
  match exact y with
  | Some (n, e) => exists k, nearest_half_up n e k /\ is_integer (Math_round y) k
  | None => Math_round y = y
  end.
Proof.
  unfold exact, Math_round. destruct (Prim2SF y) as [s | s | | s m e] eqn:Hy;
    try reflexivity.
  - exists 0. split; [split; intros; lia |].
    unfold is_integer, exact. rewrite Hy. split; intros; lia.
  - destruct (0 <=? e) eqn:He; [apply Z.leb_le in He | apply Z.leb_gt in He].
    + set (n := if s then Zneg m else Zpos m).
      exists (n * 2 ^ e). split; [split; intros; lia |].
      unfold is_integer, exact. rewrite Hy. fold n. split; intros; lia.
    + set (n := if s then Zneg m else Zpos m).
      set (P := 2 ^ (- e)).
      assert (HP : 2 <= P).
      { subst P. change 2 with (2 ^ 1) at 1. apply Z.pow_le_mono_r; lia. }
      assert (Hn : - 2 ^ 53 < n < 2 ^ 53).
      { pose proof (valid_mantissa y s m e Hy). subst n. destruct s; lia. }
      set (k := Z.shiftr (2 * n + P) (- e + 1)).
      assert (Hk : k = (2 * n + P) / (2 * P)).
      { subst k P. rewrite Z.shiftr_div_pow2 by lia.
        rewrite Z.pow_add_r by lia. change (2 ^ 1) with 2.
        f_equal. ring. }
      assert (Hdiv : 2 * P * k <= 2 * n + P < 2 * P * k + 2 * P).
      { rewrite Hk. pose proof (Z.div_mod (2 * n + P) (2 * P) ltac:(lia)) as D.
        pose proof (Z.mod_pos_bound (2 * n + P) (2 * P) ltac:(lia)) as B. lia. }
      change (2 ^ 53) with 9007199254740992 in Hn.
      assert (Hkb : - 2 ^ 53 < k < 2 ^ 53).
      { change (2 ^ 53) with 9007199254740992. nia. }
      exists k. split.
      * split; intros H; [lia |]. fold P. nia.
      * destruct (k =? 0) eqn:Ek; [apply Z.eqb_eq in Ek | apply Z.eqb_neq in Ek].
        -- rewrite Ek. unfold is_integer, exact.
           assert (Z1 : Prim2SF neg_zero = S754_zero true) by reflexivity.
           assert (Z2 : Prim2SF zero = S754_zero false) by reflexivity.
           destruct s; rewrite ?Z1, ?Z2; split; intros; lia.
        -- apply Z2float_is_integer; assumption.
Qed.

Lemma not_finite_stays (y scale : float) :
  exact y = None -> Prim2SF scale = Prim2SF 10%float \/ Prim2SF scale = Prim2SF 100%float ->
  (y / scale)%float = y.
Proof.
  intros Hy Hs. apply Prim2SF_inj. rewrite div_spec.
  unfold exact in Hy. destruct (Prim2SF y) as [s | s | | s m e]; try discriminate Hy.
  - destruct Hs as [-> | ->]; destruct s; reflexivity.
  - destruct Hs as [-> | ->]; reflexivity.
Qed.

Lemma round1_rounds (x : float) : rounded_to 10 x (ChartCard.round1 x).
Proof.
  unfold rounded_to, ChartCard.round1.
  pose proof (Math_round_nearest (x * 10)%float) as H.
  destruct (exact (x * 10)%float) as [[n e] |] eqn:E.
  - destruct H as (k & Hk & Hw). exists k, (Math_round (x * 10)%float). auto.
  - rewrite H. apply not_finite_stays; [exact E | left; reflexivity].
Qed.

Lemma round2_rounds (x : float) : rounded_to 100 x (ChartCard.round2 x).
Proof.
  unfold rounded_to, ChartCard.round2.
  pose proof (Math_round_nearest (x * 100)%float) as H.
  destruct (exact (x * 100)%float) as [[n e] |] eqn:E.
  - destruct H as (k & Hk & Hw). exists k, (Math_round (x * 100)%float). auto.
  - rewrite H. apply not_finite_stays; [exact E | right; reflexivity].
Qed.

Local Open Scope float_scope.

(** *** [Math.max] of finite numbers *)

Local Open Scope list_scope.

Lemma max_step_inv (seen : list float) (acc x : float) :
  is_finite x = true -> max_inv seen acc -> max_inv (seen ++ [x]) (max_step acc x).
Proof.
  intros Hx (Hn & Hle & Hin).
  pose proof (finite_not_nan x Hx) as Hxn.
  unfold max_step. rewrite Hn, Hxn.
  assert (Hself : (x <=? x) = true) by (apply leb_refl; exact Hxn).
  destruct (is_zero x && is_zero acc && get_sign acc && negb (get_sign x)) eqn:Hz.
  - apply andb_true_iff in Hz. destruct Hz as [Hz _].
    apply andb_true_iff in Hz. destruct Hz as [Hz _].
    apply andb_true_iff in Hz. destruct Hz as [Hzx Hza].
    split; [exact Hxn |]. split.
    + intros v Hv. apply in_app_or in Hv. destruct Hv as [Hv | [<- | []]]; [| exact Hself].
      apply (leb_zero_zero v acc x Hza Hzx), Hle, Hv.
    + right. apply in_or_app. right. left. reflexivity.
  - destruct (acc <? x) eqn:Hlt.
    + split; [exact Hxn |]. split.
      * intros v Hv. apply in_app_or in Hv. destruct Hv as [Hv | [<- | []]]; [| exact Hself].
        apply (leb_ltb_trans v acc x); [apply Hle, Hv | exact Hlt].
      * right. apply in_or_app. right. left. reflexivity.
    + split; [exact Hn |]. split.
      * intros v Hv. apply in_app_or in Hv. destruct Hv as [Hv | [<- | []]].
        -- apply Hle, Hv.
        -- apply ltb_false_leb; assumption.
      * destruct Hin as [[-> ->] | Hin].
        -- rewrite (neg_infinity_ltb_finite x Hx) in Hlt. discriminate Hlt.
        -- right. apply in_or_app. left. exact Hin.
Qed.

Lemma fold_max_inv (l : list float) :
  Forall (fun x => is_finite x = true) l ->
  forall seen acc, max_inv seen acc -> max_inv (seen ++ l) (fold_left max_step l acc).
Proof.
  induction 1 as [| x l Hx _ IH]; intros seen acc Hinv; cbn [fold_left].
  - rewrite app_nil_r. exact Hinv.
  - replace (seen ++ x :: l) with ((seen ++ [x]) ++ l)
      by (rewrite <- app_assoc; reflexivity).
    apply IH, max_step_inv; assumption.
Qed.

(** The maximum of a non-empty list of finite numbers is one of them and is
    at least each of them. *)
Lemma Math_max_finite (l : list float) :
  l <> [] -> Forall (fun x => is_finite x = true) l ->
  In (Math_max l) l /\ forall v, In v l -> (v <=? Math_max l) = true.
Proof.
  intros Hne Hl.
  destruct (fold_max_inv l Hl [] neg_infinity) as (_ & Hle & Hin).
  { split; [reflexivity |]. split; [intros v [] | left; split; reflexivity]. }
  cbn [app] in Hle, Hin. fold (Math_max l) in Hle, Hin.
  destruct Hin as [[E _] | Hin]; [contradiction |]. split; assumption.
Qed.

(** *** [Math.min] of finite numbers *)

Lemma SFltb_leb_trans (a b c : spec_float) :
  SFltb a b = true -> SFleb b c = true -> SFleb a c = true.
Proof.
  unfold SFleb, SFltb.
  destruct a as [sa | sa | | sa ma ea], b as [sb | sb | | sb mb eb],
           c as [sc | sc | | sc mc ec]; cbn [SFcompare];
    try discriminate; try reflexivity;
    repeat match goal with s : bool |- _ => destruct s end;
    try discriminate; try reflexivity;
    intros H1 H2; cmp_cases; cbn in *; try reflexivity; try discriminate; try lia.
Qed.

Lemma ltb_leb_trans (a b c : float) :
  (a <? b) = true -> (b <=? c) = true -> (a <=? c) = true.
Proof. rewrite !leb_spec, ltb_spec. apply SFltb_leb_trans. Qed.

(** A zero is below whatever the other zero is below. *)
Lemma zero_leb_zero (v a b : float) :
  is_zero a = true -> is_zero b = true -> (a <=? v) = true -> (b <=? v) = true.
Proof.
  intros Ha Hb. destruct (is_zero_sf a Ha) as [sa Ea], (is_zero_sf b Hb) as [sb Eb].
  rewrite !leb_spec, Ea, Eb. unfold SFleb.
  destruct (Prim2SF v) as [s | s | | s m e]; cbn [SFcompare]; auto.
Qed.

Lemma finite_ltb_infinity (x : float) :
  is_finite x = true -> (x <? infinity) = true.
Proof.
  intros Hx. pose proof (not_nan_sf x (finite_not_nan x Hx)) as Hn.
  pose proof (finite_not_infinity x Hx) as Hi.
  rewrite ltb_spec, Prim2SF_infinity.
  unfold SFltb. destruct (Prim2SF x) as [s | s | | s m e]; cbn [SFcompare];
    try reflexivity; [exfalso; apply (Hi s); reflexivity | congruence].
Qed.

Lemma min_step_inv (seen : list float) (acc x : float) :
  is_finite x = true -> min_inv seen acc -> min_inv (seen ++ [x]) (min_step acc x).
Proof.
  intros Hx (Hn & Hle & Hin).
  pose proof (finite_not_nan x Hx) as Hxn.
  unfold min_step. rewrite Hn, Hxn.
  assert (Hself : (x <=? x) = true) by (apply leb_refl; exact Hxn).
  destruct (is_zero x && is_zero acc && get_sign x && negb (get_sign acc)) eqn:Hz.
  - apply andb_true_iff in Hz. destruct Hz as [Hz _].
    apply andb_true_iff in Hz. destruct Hz as [Hz _].
    apply andb_true_iff in Hz. destruct Hz as [Hzx Hza].
    split; [exact Hxn |]. split.
    + intros v Hv. apply in_app_or in Hv. destruct Hv as [Hv | [<- | []]]; [| exact Hself].
      apply (zero_leb_zero v acc x Hza Hzx), Hle, Hv.
    + right. apply in_or_app. right. left. reflexivity.
  - destruct (x <? acc) eqn:Hlt.
    + split; [exact Hxn |]. split.
      * intros v Hv. apply in_app_or in Hv. destruct Hv as [Hv | [<- | []]]; [| exact Hself].
        apply (ltb_leb_trans x acc v); [exact Hlt | apply Hle, Hv].
      * right. apply in_or_app. right. left. reflexivity.
    + split; [exact Hn |]. split.
      * intros v Hv. apply in_app_or in Hv. destruct Hv as [Hv | [<- | []]].
        -- apply Hle, Hv.
        -- apply ltb_false_leb; assumption.
      * destruct Hin as [[-> ->] | Hin].
        -- rewrite (finite_ltb_infinity x Hx) in Hlt. discriminate Hlt.
        -- right. apply in_or_app. left. exact Hin.
Qed.

Lemma fold_min_inv (l : list float) :
  Forall (fun x => is_finite x = true) l ->
  forall seen acc, min_inv seen acc -> min_inv (seen ++ l) (fold_left min_step l acc).
Proof.
  induction 1 as [| x l Hx _ IH]; intros seen acc Hinv; cbn [fold_left].
  - rewrite app_nil_r. exact Hinv.
  - replace (seen ++ x :: l) with ((seen ++ [x]) ++ l)
      by (rewrite <- app_assoc; reflexivity).
    apply IH, min_step_inv; assumption.
Qed.

(** The minimum of a non-empty list of finite numbers is one of them and is
    at most each of them. *)
Lemma Math_min_finite (l : list float) :
  l <> [] -> Forall (fun x => is_finite x = true) l ->
  In (Math_min l) l /\ forall v, In v l -> (Math_min l <=? v) = true.
Proof.
  intros Hne Hl.
  destruct (fold_min_inv l Hl [] infinity) as (_ & Hle & Hin).
  { split; [reflexivity |]. split; [intros v [] | left; split; reflexivity]. }
  cbn [app] in Hle, Hin. fold (Math_min l) in Hle, Hin.
  destruct Hin as [[E _] | Hin]; [contradiction |]. split; assumption.
Qed.

End FloatFacts.

(* ================================================================== *)
(** ** Facts about [Array.prototype.sort]                               *)
(* ================================================================== *)

Module SortFacts.
Section Sort.
Context {A : Type}.
Variable cmp : A -> A -> Z.
Hypothesis cmp_total : forall a b, before cmp a b \/ before cmp b a.
Hypothesis cmp_trans : forall a b c, before cmp a b -> before cmp b c -> before cmp a c.

Lemma insert_perm (x : A) (l : list A) : Permutation (insert cmp x l) (x :: l).
Proof.
  induction l as [| y l IH]; cbn [insert].
  - apply Permutation_refl.
  - destruct (cmp x y <=? 0)%Z.
    + apply Permutation_refl.
    + apply perm_trans with (y :: x :: l).
      * apply perm_skip, IH.
      * apply perm_swap.
Qed.

Lemma Array_sort_perm (l : list A) : Permutation (Array_sort cmp l) l.
Proof.
  induction l as [| x l IH]; cbn [Array_sort].
  - apply perm_nil.
  - apply perm_trans with (x :: Array_sort cmp l).
    + apply insert_perm.
    + apply perm_skip, IH.
Qed.

Lemma insert_sorted (x : A) (l : list A) :
  StronglySorted (before cmp) l -> StronglySorted (before cmp) (insert cmp x l).
Proof.
  induction 1 as [| y l Hs IH Hy]; cbn [insert].
  - constructor; constructor.
  - destruct (cmp x y <=? 0)%Z eqn:Hc.
    + apply Z.leb_le in Hc.
      constructor; [constructor; assumption |].
      constructor; [exact Hc |].
      eapply Forall_impl; [| exact Hy].
      intros z Hz. apply (cmp_trans x y z); assumption.
    + apply Z.leb_gt in Hc.
      constructor; [exact IH |].
      apply (Permutation_Forall (Permutation_sym (insert_perm x l))).
      constructor; [| exact Hy].
      destruct (cmp_total y x) as [H | H]; [exact H | unfold before in H; lia].
Qed.

Lemma Array_sort_sorted (l : list A) : StronglySorted (before cmp) (Array_sort cmp l).
Proof.
  induction l as [| x l IH]; cbn [Array_sort].
  - constructor.
  - apply insert_sorted, IH.
Qed.

(** Sorting leaves a sorted array as it is. *)
Lemma Array_sort_fixed (l : list A) :
  StronglySorted (before cmp) l -> Array_sort cmp l = l.
Proof.
  induction 1 as [| x l Hs IH Hx]; cbn [Array_sort]; [reflexivity |].
  rewrite IH. destruct l as [| y l']; [reflexivity |]. cbn [insert].
  inversion Hx as [| ? ? Hxy _]; subst.
  unfold before in Hxy. apply Z.leb_le in Hxy. rewrite Hxy. reflexivity.
Qed.

(** In a sorted array an earlier element may stand before a later one. *)
Lemma sorted_nth (l : list A) :
  StronglySorted (before cmp) l ->
  forall i j a b, (i < j)%nat -> nth_error l i = Some a -> nth_error l j = Some b ->
    before cmp a b.
Proof.
  induction 1 as [| x l Hs IH Hx]; intros i j a b Hij Ha Hb.
  - destruct i; discriminate Ha.
  - destruct j as [| j]; [lia |]. cbn [nth_error] in Hb.
    destruct i as [| i]; cbn [nth_error] in Ha.
    + injection Ha as <-. rewrite Forall_forall in Hx.
      apply Hx. eapply nth_error_In, Hb.
    + apply (IH i j); [lia | assumption | assumption].
Qed.
End Sort.
End SortFacts.

(* ================================================================== *)
(** ** The Series Builder: sort and forward fill                        *)
(* ================================================================== *)

Module SeriesFacts.
Import ChartCard.
Local Open Scope list_scope.

Lemma time_diff_total (ta tb : option Z) :
  (time_diff ta tb <= 0)%Z \/ (time_diff tb ta <= 0)%Z.
Proof. destruct ta as [a |], tb as [b |]; cbn; lia. Qed.

Lemma time_diff_trans (ta tb tc : option Z) :
  (time_diff ta tb <= 0)%Z -> (time_diff tb tc <= 0)%Z -> (time_diff ta tc <= 0)%Z.
Proof. destruct ta as [a |], tb as [b |], tc as [c |]; cbn; lia. Qed.

Section Engine.
Variable legacy : string -> option Z.

Lemma by_time_total (a b : LogRow) :
  before (by_time legacy) a b \/ before (by_time legacy) b a.
Proof. apply time_diff_total. Qed.

Lemma by_time_trans (a b c : LogRow) :
  before (by_time legacy) a b -> before (by_time legacy) b c ->
  before (by_time legacy) a c.
Proof. apply time_diff_trans. Qed.

(** The comparator looks at the timestamps only. *)
Lemma sorted_by_timestamps (l l' : list LogRow) :
  map timestamp l = map timestamp l' ->
  StronglySorted (before (by_time legacy)) l ->
  StronglySorted (before (by_time legacy)) l'.
Proof.
  intros E H. revert l' E.
  induction H as [| x l Hs IH Hx]; intros l' E.
  - destruct l'; [constructor | discriminate E].
  - destruct l' as [| x' l']; [discriminate E |].
    cbn [map] in E. injection E as Ex El.
    constructor; [apply IH, El |].
    clear IH Hs. revert l' El.
    induction Hx as [| y l Hy _ IHx]; intros l' El.
    + destruct l'; [constructor | discriminate El].
    + destruct l' as [| y' l']; [discriminate El |].
      cbn [map] in El. injection El as Ey El.
      constructor; [| apply IHx, El].
      unfold before, by_time, time_key in *. rewrite <- Ex, <- Ey. exact Hy.
Qed.
End Engine.

Lemma toNum_finite (x : option cell_value) (n : float) :
  toNum x = Some n -> Number_isFinite n = true.
Proof.
  unfold toNum. destruct x as [y |]; [| discriminate].
  destruct (is_empty_string y); [discriminate |].
  destruct (Number_isFinite (ToNumber y)) eqn:E; [| discriminate].
  intros H. injection H as <-. exact E.
Qed.

(** [toNum] gives back a finite number as it is. *)
Lemma toNum_field_finite (x : option float) :
  finite_or_absent x -> toNum (field x) = x.
Proof.
  intros H. destruct x as [n |]; [| reflexivity].
  cbn. rewrite (H n eq_refl). reflexivity.
Qed.

Lemma fill_rows_timestamps (rows : list LogRow) :
  forall st, map timestamp (fill_rows st rows) = map timestamp rows.
Proof.
  induction rows as [| row rest IH]; intros st; cbn; [reflexivity |].
  rewrite IH. reflexivity.
Qed.

Lemma fill_rows_length (rows : list LogRow) :
  forall st, List.length (fill_rows st rows) = List.length rows.
Proof.
  induction rows as [| row rest IH]; intros st; cbn; [reflexivity |].
  rewrite IH. reflexivity.
Qed.

(** The row emitted at position [i] carries, for each lift, the row's own
    value, else the most recent of the earlier rows, else what was
    remembered at the start. *)
Lemma fill_rows_nth (rows : list LogRow) :
  forall st i row out,
    nth_error rows i = Some row ->
    nth_error (fill_rows st rows) i = Some out ->
    timestamp out = timestamp row /\
    bodyWeight out = bodyWeight row /\
    bp out = coalesce (forward_filled bp (firstn i rows) row) (lastBp st) /\
    sq out = coalesce (forward_filled sq (firstn i rows) row) (lastSq st) /\
    dl out = coalesce (forward_filled dl (firstn i rows) row) (lastDl st).
Proof.
  induction rows as [| r rest IH]; intros st i row out Hi Ho.
  - destruct i; discriminate Hi.
  - destruct i as [| i].
    + cbn in Hi, Ho. injection Hi as <-. injection Ho as <-.
      cbn [firstn]. unfold forward_filled. cbn.
      repeat split;
        [destruct (toNum (field (bp r))) | destruct (toNum (field (sq r)))
         | destruct (toNum (field (dl r)))]; reflexivity.
    + cbn [nth_error] in Hi. cbn [fill_rows fill_row nth_error] in Ho.
      destruct (IH _ i row out Hi Ho) as (Ht & Hw & Hb & Hs & Hd).
      cbn [lastBp lastSq lastDl] in Hb, Hs, Hd.
      repeat split; try assumption.
      * rewrite Hb. unfold forward_filled. cbn [firstn most_recent].
        destruct (toNum (field (bp row))), (most_recent bp (firstn i rest)),
          (toNum (field (bp r))); reflexivity.
      * rewrite Hs. unfold forward_filled. cbn [firstn most_recent].
        destruct (toNum (field (sq row))), (most_recent sq (firstn i rest)),
          (toNum (field (sq r))); reflexivity.
      * rewrite Hd. unfold forward_filled. cbn [firstn most_recent].
        destruct (toNum (field (dl row))), (most_recent dl (firstn i rest)),
          (toNum (field (dl r))); reflexivity.
Qed.

Lemma no_last_finite : last_finite no_last.
Proof. repeat split; intros n H; discriminate H. Qed.

(** One lift through the callback twice: with [last] remembered before the
    row, the second pass reads back what the first emitted. *)
Lemma refill_one (x last : option float) :
  finite_or_absent last ->
  let b := toNum (field x) in
  let nl := match b with Some _ => b | None => last end in
  let o := coalesce b nl in
  finite_or_absent nl /\ o = nl /\
  match toNum (field o) with Some _ => toNum (field o) | None => last end = nl /\
  coalesce (toNum (field o)) nl = o.
Proof.
  intros Hl b nl o.
  assert (Hb : finite_or_absent b) by (intros n Hn; apply (toNum_finite _ _ Hn)).
  assert (Hnl : finite_or_absent nl) by (subst nl; destruct b; assumption).
  assert (Ho : o = nl) by (subst o nl; destruct b; reflexivity).
  rewrite Ho, (toNum_field_finite nl Hnl).
  repeat split; try assumption.
  - subst nl. destruct b; [reflexivity | destruct last; reflexivity].
  - destruct nl; reflexivity.
Qed.

Lemma fill_row_finite (st : Last) (row : LogRow) :
  last_finite st ->
  last_finite (fst (fill_row st row)) /\ row_finite (snd (fill_row st row)).
Proof.
  intros (Hb & Hs & Hd).
  destruct (refill_one (bp row) _ Hb) as (B1 & B2 & _).
  destruct (refill_one (sq row) _ Hs) as (S1 & S2 & _).
  destruct (refill_one (dl row) _ Hd) as (D1 & D2 & _).
  unfold fill_row, last_finite, row_finite.
  cbn [fst snd lastBp lastSq lastDl bp sq dl].
  rewrite B2, S2, D2. repeat split; assumption.
Qed.

Lemma fill_rows_finite (rows : list LogRow) :
  forall st, last_finite st -> Forall row_finite (fill_rows st rows).
Proof.
  induction rows as [| row rest IH]; intros st Hst; cbn [fill_rows].
  - constructor.
  - destruct (fill_row_finite st row Hst) as [H1 H2].
    destruct (fill_row st row) as [st' out]. constructor; [exact H2 | apply IH, H1].
Qed.

(** The callback, run from the same remembered values on the row it
    emitted, ends in the same state and emits the same row. *)
Lemma fill_row_again (st : Last) (row : LogRow) :
  last_finite st ->
  fill_row st (snd (fill_row st row)) = fill_row st row.
Proof.
  intros (Hb & Hs & Hd).
  destruct (refill_one (bp row) _ Hb) as (_ & _ & B3 & B4).
  destruct (refill_one (sq row) _ Hs) as (_ & _ & S3 & S4).
  destruct (refill_one (dl row) _ Hd) as (_ & _ & D3 & D4).
  unfold fill_row. cbn [snd timestamp bodyWeight bp sq dl lastBp lastSq lastDl] in *.
  rewrite B3, S3, D3, B4, S4, D4. reflexivity.
Qed.

Lemma fill_rows_again (rows : list LogRow) :
  forall st, last_finite st -> fill_rows st (fill_rows st rows) = fill_rows st rows.
Proof.
  induction rows as [| row rest IH]; intros st Hst; [reflexivity |].
  cbn [fill_rows].
  pose proof (fill_row_again st row Hst) as Hr.
  destruct (fill_row_finite st row Hst) as [Hst' _].
  destruct (fill_row st row) as [st' out] eqn:E. cbn [snd fst] in *.
  cbn [fill_rows]. rewrite Hr. rewrite (IH st' Hst'). reflexivity.
Qed.

Section Engine.
Variable legacy : string -> option Z.

Lemma sortAndFill_sorted (rows : list LogRow) :
  StronglySorted (before (by_time legacy)) (sortAndFillBpSqDl legacy rows).
Proof.
  apply (sorted_by_timestamps legacy (Array_sort (by_time legacy) rows)).
  - unfold sortAndFillBpSqDl. rewrite fill_rows_timestamps. reflexivity.
  - apply SortFacts.Array_sort_sorted; [apply by_time_total | apply by_time_trans].
Qed.
End Engine.

(** C9: the sort-and-fill step applied to its own output gives that output
    back, for every list of rows; hence the series built from the filled
    rows is the series built from the rows themselves. *)
Theorem sortAndFill_idempotent :
  forall (legacy : string -> option Z) (rows : list LogRow),
    sortAndFillBpSqDl legacy (sortAndFillBpSqDl legacy rows)
      = sortAndFillBpSqDl legacy rows /\
    forall dataKey weightRatio,
      chartData legacy dataKey weightRatio (sortAndFillBpSqDl legacy rows)
        = chartData legacy dataKey weightRatio rows.
Proof.
  intros legacy rows.
  assert (E : sortAndFillBpSqDl legacy (sortAndFillBpSqDl legacy rows)
              = sortAndFillBpSqDl legacy rows).
  { unfold sortAndFillBpSqDl at 1.
    rewrite (SortFacts.Array_sort_fixed _ _ (sortAndFill_sorted legacy rows)).
    unfold sortAndFillBpSqDl. apply fill_rows_again, no_last_finite. }
  split; [exact E |].
  intros dataKey weightRatio. unfold chartData. rewrite E. reflexivity.
Qed.

Lemma coalesce_none_r {A} (a : option A) : coalesce a None = a.
Proof. destruct a; reflexivity. Qed.

(** The scenario's total at the third point is 305, the sum of 85, 100 and
    120, and not 325. *)
Lemma scenario_total_is_not_325 :
  map pt_total (chartData strict_engine key_total false scenario_rows)
    <> [None; None; Some 325%float].
Proof.
  intros H.
  apply (f_equal (fun l => match nth 2 l None with
                           | Some x => PrimFloat.eqb x 305
                           | None => false
                           end)) in H.
  vm_compute in H. discriminate H.
Qed.

(** C1: over the rows sorted by time, each lift emitted at a
    position is the row's own value when there is one, else the most recent
    earlier value of that same lift, absent when there is none; each lift is
    filled from its own column alone.  For the three rows of the scenario
    the bp column is [80, 80, 85], sq is [null, 100, 100], dl is
    [null, null, 120] and total is [null, null, 305]. *)
Theorem forward_fill_per_lift :
  (forall (legacy : string -> option Z) (rows : list LogRow),
     let sorted := Array_sort (by_time legacy) rows in
     let out := sortAndFillBpSqDl legacy rows in
     Permutation sorted rows /\
     StronglySorted (before (by_time legacy)) sorted /\
     List.length out = List.length sorted /\
     forall i row filled,
       nth_error sorted i = Some row -> nth_error out i = Some filled ->
       timestamp filled = timestamp row /\
       bp filled = forward_filled bp (firstn i sorted) row /\
       sq filled = forward_filled sq (firstn i sorted) row /\
       dl filled = forward_filled dl (firstn i sorted) row) /\
  (forall legacy : string -> option Z,
     map bp (sortAndFillBpSqDl legacy scenario_rows)
       = [Some 80; Some 80; Some 85]%float /\
     map sq (sortAndFillBpSqDl legacy scenario_rows)
       = [None; Some 100; Some 100]%float /\
     map dl (sortAndFillBpSqDl legacy scenario_rows)
       = [None; None; Some 120]%float /\
     map pt_total (chartData legacy key_total false scenario_rows)
       = [None; None; Some 305]%float).
Proof.
  split.
  - intros legacy rows sorted out.
    split; [apply SortFacts.Array_sort_perm |].
    split; [apply SortFacts.Array_sort_sorted; [apply by_time_total | apply by_time_trans] |].
    split; [apply fill_rows_length |].
    intros i row filled Hi Ho.
    destruct (fill_rows_nth sorted no_last i row filled Hi Ho) as (Ht & _ & Hb & Hs & Hd).
    cbn [no_last lastBp lastSq lastDl] in Hb, Hs, Hd.
    rewrite coalesce_none_r in Hb, Hs, Hd. repeat split; assumption.
  - intros legacy. repeat split; vm_compute; reflexivity.
Qed.

Lemma Forall_map_Forall2 {A B} (P : A -> Prop) (R : A -> B -> Prop) (g : A -> B)
    (l : list A) :
  (forall x, P x -> R x (g x)) -> Forall P l -> Forall2 R l (map g l).
Proof.
  intros H. induction 1 as [| x l Hx _ IH]; cbn [map]; constructor; auto.
Qed.

Lemma finite_or_null_finite (x : option float) :
  finite_or_absent x -> finite_or_null x = x.
Proof.
  intros H. destruct x as [n |]; [| reflexivity]. cbn. rewrite (H n eq_refl). reflexivity.
Qed.

(** C3: at every point of the series the total is there exactly when the
    three forward-filled lifts are, and is then their sum rounded to one
    decimal, [Math.round(sum * 10) / 10]: the integer nearest to ten times
    the sum, the upper one of two equally near, divided by ten. *)
Theorem total_iff_all_lifts :
  forall (legacy : string -> option Z) (dataKey : NumericDataKey)
         (weightRatio : bool) (rows : list LogRow),
    Forall2
      (fun filled pt =>
         pt_bp pt = bp filled /\ pt_sq pt = sq filled /\ pt_dl pt = dl filled /\
         (present (pt_total pt) <->
            present (bp filled) /\ present (sq filled) /\ present (dl filled)) /\
         (forall x y z,
            bp filled = Some x -> sq filled = Some y -> dl filled = Some z ->
            exists r,
              pt_total pt = Some r /\ r = round1 (x + y + z)%float /\
              rounded_to 10 (x + y + z)%float r))
      (sortAndFillBpSqDl legacy rows)
      (chartData legacy dataKey weightRatio rows).
Proof.
  intros legacy dataKey weightRatio rows. unfold chartData.
  apply (Forall_map_Forall2 row_finite);
    [| apply fill_rows_finite, no_last_finite].
  intros filled (Hb & Hs & Hd). unfold chartPoint.
  cbn [pt_bp pt_sq pt_dl pt_total].
  rewrite (finite_or_null_finite _ Hb), (finite_or_null_finite _ Hs),
    (finite_or_null_finite _ Hd).
  unfold present.
  split; [reflexivity |]. split; [reflexivity |]. split; [reflexivity |]. split.
  - split.
    + intros H. destruct (bp filled), (sq filled), (dl filled); repeat split; congruence.
    + intros (H1 & H2 & H3).
      destruct (bp filled), (sq filled), (dl filled); congruence.
  - intros x y z -> -> ->. exists (round1 (x + y + z)%float).
    split; [reflexivity |]. split; [reflexivity |]. apply FloatFacts.round1_rounds.
Qed.

(** With no lift recorded yet, a row with a positive body weight has its
    ratio set to [null]. *)
Lemma ratio_absent_despite_weight :
  ~ ratio_iff_own_weight strict_engine key_bp
      [log "2024-01-01" None None None (Some 70%float)].
Proof.
  unfold ratio_iff_own_weight.
  set (sorted := Array_sort _ _). set (pts := chartData _ _ _ _).
  vm_compute in sorted. vm_compute in pts. subst sorted pts.
  intros H. inversion H as [| row pt l l' [_ Hback] _]; subst.
  apply Hback; [| reflexivity].
  exists 70%float. split; reflexivity.
Qed.

Lemma Forall_nth_error {A} (P : A -> Prop) (l : list A) (i : nat) (x : A) :
  Forall P l -> nth_error l i = Some x -> P x.
Proof.
  intros H Hx. rewrite Forall_forall in H. apply H. eapply nth_error_In, Hx.
Qed.

(** The ratio property of a point, read off the field the chart shows. *)
Lemma chartPoint_ratio (dataKey : NumericDataKey) (weightRatio : bool) (row : LogRow) :
  pt_ratio (chartPoint dataKey weightRatio row) =
  match toNum (field (bodyWeight row)) with
  | Some bw =>
      if useRatio dataKey weightRatio && (0 <? bw)%float then
        match field_of dataKey (chartPoint dataKey weightRatio row) with
        | Some r =>
            if Number_isFinite r then Some (Some (round2 (r / bw)%float)) else Some None
        | None => Some None
        end
      else None
  | None => None
  end.
Proof. destruct dataKey; reflexivity. Qed.

(** C5: in ratio mode a point has a ratio exactly when its own
    row reports a finite body weight above 0 and the forward-filled value
    of the field is there and finite; the ratio is then that value divided
    by the row's own body weight, rounded to 2 decimals (the integer
    nearest to a hundred times the quotient, the upper one of two equally
    near, divided by a hundred).  Outside ratio mode no point has one. *)
Theorem ratio_iff_weight_and_value :
  forall (legacy : string -> option Z) (dataKey : NumericDataKey)
         (weightRatio : bool) (rows : list LogRow)
         (i : nat) (row filled : LogRow) (pt : ChartPoint),
    nth_error (Array_sort (by_time legacy) rows) i = Some row ->
    nth_error (sortAndFillBpSqDl legacy rows) i = Some filled ->
    nth_error (chartData legacy dataKey weightRatio rows) i = Some pt ->
    pt_bp pt = bp filled /\ pt_sq pt = sq filled /\ pt_dl pt = dl filled /\
    forall r,
      ratio_value pt = Some r <->
      useRatio dataKey weightRatio = true /\
      exists bw v,
        bodyWeight row = Some bw /\ Number_isFinite bw = true /\
        (0 <? bw)%float = true /\
        field_of dataKey pt = Some v /\ Number_isFinite v = true /\
        r = round2 (v / bw)%float /\ rounded_to 100 (v / bw)%float r.
Proof.
  intros legacy dataKey weightRatio rows i row filled pt Hrow Hfilled Hpt.
  unfold chartData in Hpt. rewrite nth_error_map, Hfilled in Hpt.
  cbn [option_map] in Hpt. injection Hpt as <-.
  destruct (fill_rows_nth _ no_last i row filled Hrow Hfilled) as (_ & Hw & _).
  destruct (Forall_nth_error row_finite _ i filled
              (fill_rows_finite _ no_last no_last_finite) Hfilled) as (Hb & Hs & Hd).
  split; [apply finite_or_null_finite, Hb |].
  split; [apply finite_or_null_finite, Hs |].
  split; [apply finite_or_null_finite, Hd |].
  intros r. unfold ratio_value. rewrite chartPoint_ratio, Hw.
  generalize (field_of dataKey (chartPoint dataKey weightRatio filled)) as raw.
  intros raw. split.
  - destruct (bodyWeight row) as [bw |];
      cbn [field option_map toNum is_empty_string ToNumber]; [| discriminate].
    destruct (Number_isFinite bw) eqn:Hfin; [| discriminate].
    destruct (useRatio dataKey weightRatio); cbn [andb]; [| discriminate].
    destruct (0 <? bw)%float eqn:Hpos; [| discriminate].
    destruct raw as [v |]; [| discriminate].
    destruct (Number_isFinite v) eqn:Hv; [| discriminate].
    intros H. injection H as <-.
    split; [reflexivity |]. exists bw, v.
    repeat split; try assumption. apply FloatFacts.round2_rounds.
  - intros (Hu & bw & v & Ebw & Hfin & Hpos & Ev & Hv & -> & _).
    rewrite Ebw. cbn [field option_map toNum is_empty_string ToNumber].
    rewrite Hfin, Hu, Hpos. cbn [andb]. rewrite Ev, Hv. reflexivity.
Qed.

(** The ratio invariant at the second point of a two-row log: the
    bench press of the first row, carried forward, over the second row's
    own body weight. *)
Lemma ratio_iff_weight_and_value_witness :
  ratio_value
    {| pt_timestamp := "2024-02-01"; pt_bp := Some 100%float; pt_sq := None;
       pt_dl := None; pt_total := None; pt_bodyWeight := Some 50%float;
       pt_ratio := Some (Some 2%float) |} = Some 2%float <->
  useRatio key_bp true = true /\
  exists bw v,
    Some 50%float = Some bw /\ Number_isFinite bw = true /\
    (0 <? bw)%float = true /\
    Some 100%float = Some v /\ Number_isFinite v = true /\
    2%float = round2 (v / bw)%float /\ rounded_to 100 (v / bw)%float 2%float.
Proof.
  destruct (ratio_iff_weight_and_value strict_engine key_bp true
              [log "2024-01-01" (Some 100%float) None None (Some 80%float);
               log "2024-02-01" None None None (Some 50%float)]
              1
              (log "2024-02-01" None None None (Some 50%float))
              (log "2024-02-01" (Some 100%float) None None (Some 50%float))
              {| pt_timestamp := "2024-02-01"; pt_bp := Some 100%float; pt_sq := None;
                 pt_dl := None; pt_total := None; pt_bodyWeight := Some 50%float;
                 pt_ratio := Some (Some 2%float) |})
    as (_ & _ & _ & H); [vm_compute; reflexivity ..|].
  exact (H 2%float).
Defined.

End SeriesFacts.

(* ================================================================== *)
(** ** The Summary Calculator                                           *)
(* ================================================================== *)

Module SummaryFacts.
Import App.
Local Open Scope list_scope.

Lemma nums_In (lift : LogRow -> option float) (rows : list LogRow) (x : float) :
  In x (nums lift rows) <->
  exists row, In row rows /\ lift row = Some x /\ Number_isFinite x = true.
Proof.
  induction rows as [| r rest IH]; cbn [nums].
  - split; [intros [] | intros (row & [] & _)].
  - destruct (lift r) as [y |] eqn:Ey.
    + destruct (Number_isFinite y) eqn:Fy.
      * cbn [In]. rewrite IH. split.
        -- intros [<- | (row & Hin & Hl & Hf)].
           ++ exists r. repeat split; [left; reflexivity | assumption | assumption].
           ++ exists row. repeat split; [right; assumption | assumption | assumption].
        -- intros (row & [<- | Hin] & Hl & Hf).
           ++ left. congruence.
           ++ right. exists row. repeat split; assumption.
      * rewrite IH. split.
        -- intros (row & Hin & Hl & Hf). exists row. repeat split; [right |..]; assumption.
        -- intros (row & [<- | Hin] & Hl & Hf); [congruence |].
           exists row. repeat split; assumption.
    + rewrite IH. split.
      * intros (row & Hin & Hl & Hf). exists row. repeat split; [right |..]; assumption.
      * intros (row & [<- | Hin] & Hl & Hf); [congruence |].
        exists row. repeat split; assumption.
Qed.

Lemma nums_finite (lift : LogRow -> option float) (rows : list LogRow) :
  Forall (fun x => is_finite x = true) (nums lift rows).
Proof.
  apply Forall_forall. intros x Hx. apply nums_In in Hx.
  destruct Hx as (_ & _ & _ & H). exact H.
Qed.

Lemma best_is_max (lift : LogRow -> option float) (rows : list LogRow) :
  is_max_of lift rows (best lift rows).
Proof.
  unfold best. destruct (nums lift rows) as [| y l] eqn:E.
  - intros row x Hin Hl. destruct (Number_isFinite x) eqn:F; [| reflexivity].
    assert (H : In x (nums lift rows)) by (apply nums_In; exists row; auto).
    rewrite E in H. destruct H.
  - assert (Hne : y :: l <> []) by discriminate.
    pose proof (nums_finite lift rows) as Hf. rewrite E in Hf.
    destruct (FloatFacts.Math_max_finite (y :: l) Hne Hf) as [Hin Hle].
    split.
    + rewrite <- E in Hin at 2. apply nums_In in Hin. exact Hin.
    + intros row x Hr Hl Hx. apply Hle. rewrite <- E. apply nums_In.
      exists row. auto.
Qed.

(** C4: each personal best is the largest finite value of its lift over
    all rows, and the total is the sum of the three bests rounded to one
    decimal (the integer nearest to ten times the sum, the upper one of two
    equally near, divided by ten), there only when the three are; for the
    two rows of the
    scenario the bests are 100, 150 and 200 and the total is 450. *)
Theorem bestStats_uses_per_lift_maxima :
  (forall rows : list LogRow,
     is_max_of bp rows (maxBP (bestStats rows)) /\
     is_max_of sq rows (maxSQ (bestStats rows)) /\
     is_max_of dl rows (maxDL (bestStats rows)) /\
     total (bestStats rows) =
       match maxBP (bestStats rows), maxSQ (bestStats rows), maxDL (bestStats rows) with
       | Some x, Some y, Some z => Some (ChartCard.round1 (x + y + z)%float)
       | _, _, _ => None
       end /\
     (forall x y z,
        maxBP (bestStats rows) = Some x -> maxSQ (bestStats rows) = Some y ->
        maxDL (bestStats rows) = Some z ->
        exists r, total (bestStats rows) = Some r /\ rounded_to 10 (x + y + z)%float r)) /\
  bestStats summary_rows =
    {| maxBP := Some 100%float; maxSQ := Some 150%float; maxDL := Some 200%float;
       total := Some 450%float |}.
Proof.
  split.
  - intros rows. cbn [bestStats maxBP maxSQ maxDL total].
    split; [apply best_is_max |]. split; [apply best_is_max |].
    split; [apply best_is_max |]. split; [reflexivity |].
    intros x y z -> -> ->. exists (ChartCard.round1 (x + y + z)%float).
    split; [reflexivity | apply FloatFacts.round1_rounds].
  - vm_compute. reflexivity.
Qed.

Lemma ascending_total (a b : LogRow * Z) :
  before ascending a b \/ before ascending b a.
Proof. unfold before, ascending. lia. Qed.

Lemma ascending_trans (a b c : LogRow * Z) :
  before ascending a b -> before ascending b c -> before ascending a c.
Proof. unfold before, ascending. lia. Qed.

Lemma descending_total (a b : LogRow * Z) :
  before descending a b \/ before descending b a.
Proof. unfold before, descending. lia. Qed.

Lemma descending_trans (a b c : LogRow * Z) :
  before descending a b -> before descending b c -> before descending a c.
Proof. unfold before, descending. lia. Qed.

Lemma last_of_In {A} (l : list A) (x : A) : last_of l = Some x -> In x l.
Proof.
  induction l as [| a l IH]; [discriminate |].
  destruct l as [| b l'].
  - cbn. intros H. injection H as <-. left. reflexivity.
  - intros H. right. apply IH. exact H.
Qed.

Lemma last_of_none {A} (l : list A) : last_of l = None -> l = [].
Proof.
  induction l as [| a l IH]; [reflexivity |].
  destruct l as [| b l']; [discriminate |].
  intros H. specialize (IH H). discriminate IH.
Qed.

(** The last element of a sorted array may stand after every element. *)
Lemma sorted_last_max {A} (cmp : A -> A -> Z) (l : list A) (x : A) :
  (forall a, before cmp a a) ->
  StronglySorted (before cmp) l -> last_of l = Some x ->
  forall y, In y l -> before cmp y x.
Proof.
  intros Hrefl Hs. induction Hs as [| a l Hs IH Ha]; [discriminate |].
  destruct l as [| b l'].
  - cbn. intros H y [<- | []]. injection H as <-. apply Hrefl.
  - intros H y [<- | Hy].
    + rewrite Forall_forall in Ha. apply Ha. apply last_of_In. exact H.
    + apply IH; assumption.
Qed.

(** In a sorted array what follows an element may stand after it. *)
Lemma sorted_app_later {A} (R : A -> A -> Prop) (pre post : list A) (x : A) :
  StronglySorted R (pre ++ x :: post) -> Forall (R x) post.
Proof.
  induction pre as [| a pre IH]; cbn [app]; intros H;
    apply StronglySorted_inv in H; destruct H as [Hs Hx]; [exact Hx | apply IH, Hs].
Qed.

(** The scan stops at the first row that is weighed: no row before it is. *)
Lemma first_body_weight_some (l : list (LogRow * Z)) (w : float) :
  first_body_weight l = Some w ->
  exists pre row t post,
    l = pre ++ (row, t) :: post /\ weighed row w /\
    forall row' t' w', In (row', t') pre -> ~ weighed row' w'.
Proof.
  induction l as [| [r t] l IH]; [discriminate |]. cbn [first_body_weight].
  destruct (bodyWeight r) as [bw |] eqn:Ebw.
  - destruct (Number_isFinite bw && (0 <? bw)%float) eqn:Hok.
    + intros H. injection H as <-.
      apply andb_true_iff in Hok. destruct Hok as [Hf Hp].
      exists [], r, t, l. split; [reflexivity |]. split; [repeat split; assumption |].
      intros row' t' w' [].
    + intros H. destruct (IH H) as (pre & row & t0 & post & -> & Hw & Hpre).
      exists ((r, t) :: pre), row, t0, post. split; [reflexivity |]. split; [exact Hw |].
      intros row' t' w' [E | Hin]; [| apply (Hpre row' t' w' Hin)].
      injection E as <- <-. intros (E1 & E2 & E3).
      rewrite Ebw in E1. injection E1 as <-. rewrite E2, E3 in Hok. discriminate Hok.
  - intros H. destruct (IH H) as (pre & row & t0 & post & -> & Hw & Hpre).
    exists ((r, t) :: pre), row, t0, post. split; [reflexivity |]. split; [exact Hw |].
    intros row' t' w' [E | Hin]; [| apply (Hpre row' t' w' Hin)].
    injection E as <- <-. intros (E1 & _). rewrite Ebw in E1. discriminate E1.
Qed.

Lemma first_body_weight_none (l : list (LogRow * Z)) :
  first_body_weight l = None ->
  forall row t w, In (row, t) l -> ~ weighed row w.
Proof.
  induction l as [| [r t] l IH]; [intros _ row t w [] |]. cbn [first_body_weight].
  destruct (bodyWeight r) as [bw |] eqn:Ebw.
  - destruct (Number_isFinite bw && (0 <? bw)%float) eqn:Hok; [discriminate |].
    intros H row t0 w [E | Hin]; [| apply (IH H row t0 w Hin)].
    injection E as <- <-. intros (E1 & E2 & E3).
    rewrite Ebw in E1. injection E1 as <-. rewrite E2, E3 in Hok. discriminate Hok.
  - intros H row t0 w [E | Hin]; [| apply (IH H row t0 w Hin)].
    injection E as <- <-. intros (E1 & _). rewrite Ebw in E1. discriminate E1.
Qed.

Section Engine.
Variable legacy : string -> option Z.

Lemma withDate_In (rows : list LogRow) (row : LogRow) (t : Z) :
  In (row, t) (withDate legacy rows) <->
  In row rows /\ TimeRange.parseTimestamp legacy (timestamp row) = Some t.
Proof.
  induction rows as [| r rest IH]; cbn [withDate].
  - split; [intros [] | intros [[] _]].
  - destruct (TimeRange.parseTimestamp legacy (timestamp r)) as [d |] eqn:Ed.
    + cbn [In]. rewrite IH. split.
      * intros [E | [Hin Hp]].
        -- injection E as <- <-. split; [left; reflexivity | exact Ed].
        -- split; [right; exact Hin | exact Hp].
      * intros [[<- | Hin] Hp].
        -- left. congruence.
        -- right. split; assumption.
    + rewrite IH. split.
      * intros [Hin Hp]. split; [right; exact Hin | exact Hp].
      * intros [[<- | Hin] Hp]; [congruence | split; assumption].
Qed.

Lemma withDate_nil (rows : list LogRow) :
  withDate legacy rows = [] <->
  forall row, In row rows -> TimeRange.parseTimestamp legacy (timestamp row) = None.
Proof.
  split.
  - intros E row Hin.
    destruct (TimeRange.parseTimestamp legacy (timestamp row)) as [t |] eqn:Et;
      [| reflexivity].
    assert (H : In (row, t) (withDate legacy rows)) by (apply withDate_In; auto).
    rewrite E in H. destruct H.
  - intros H. destruct (withDate legacy rows) as [| [row t] l] eqn:E; [reflexivity |].
    assert (Hin : In (row, t) (withDate legacy rows)) by (rewrite E; left; reflexivity).
    apply withDate_In in Hin. destruct Hin as [Hin Hp].
    rewrite (H row Hin) in Hp. discriminate Hp.
Qed.
End Engine.

(** C6: the latest body weight is the body weight of the newest row, among
    those whose timestamp parses, that reports a finite body weight above 0
    (found first in the rows sorted by time, newest first), and is absent
    when there is no such row; the ratio summary is absent as a whole when
    the latest body weight is absent or not above 0, and is otherwise each
    best that is there, divided by it and rounded to 2 decimals (the
    integer nearest to a hundred times the quotient, the upper one of two
    equally near, divided by a hundred). *)
Theorem latestBodyWeight_and_ratios :
  forall (legacy : string -> option Z) (rows : list LogRow),
    let parse := TimeRange.parseTimestamp legacy in
    let dated := Array_sort descending (withDate legacy rows) in
    (forall row t, In (row, t) dated <-> In row rows /\ parse (timestamp row) = Some t) /\
    StronglySorted (before descending) dated /\
    latestBodyWeight legacy rows = first_body_weight dated /\
    (latestBodyWeight legacy rows = None <->
       forall row t w, In row rows -> parse (timestamp row) = Some t -> ~ weighed row w) /\
    (forall w, latestBodyWeight legacy rows = Some w ->
       exists row t,
         In row rows /\ parse (timestamp row) = Some t /\ weighed row w /\
         forall row' t' w',
           In row' rows -> parse (timestamp row') = Some t' -> weighed row' w' ->
           (t' <= t)%Z) /\
    (latestBodyWeight legacy rows = None -> ratioSummary legacy rows = no_ratios) /\
    (forall w, latestBodyWeight legacy rows = Some w ->
       ratioSummary legacy rows =
         {| maxBP := option_map (fun x => ChartCard.round2 (x / w)%float) (maxBP (bestStats rows));
            maxSQ := option_map (fun x => ChartCard.round2 (x / w)%float) (maxSQ (bestStats rows));
            maxDL := option_map (fun x => ChartCard.round2 (x / w)%float) (maxDL (bestStats rows));
            total := option_map (fun x => ChartCard.round2 (x / w)%float) (total (bestStats rows)) |}) /\
    (forall w, latestBodyWeight legacy rows = Some w ->
       ratio_of w (maxBP (bestStats rows)) (maxBP (ratioSummary legacy rows)) /\
       ratio_of w (maxSQ (bestStats rows)) (maxSQ (ratioSummary legacy rows)) /\
       ratio_of w (maxDL (bestStats rows)) (maxDL (ratioSummary legacy rows)) /\
       ratio_of w (total (bestStats rows)) (total (ratioSummary legacy rows))) /\
    (forall stats w, (w <=? 0)%float = true -> bestStatsRatios stats (Some w) = no_ratios).
Proof.
  intros legacy rows parse dated.
  assert (Hperm : Permutation dated (withDate legacy rows))
    by apply SortFacts.Array_sort_perm.
  assert (Hin : forall row t,
             In (row, t) dated <-> In row rows /\ parse (timestamp row) = Some t).
  { intros row t. unfold parse. rewrite <- withDate_In. split; intros H.
    - apply (Permutation_in _ Hperm H).
    - apply (Permutation_in _ (Permutation_sym Hperm) H). }
  assert (Hsorted : StronglySorted (before descending) dated)
    by (apply SortFacts.Array_sort_sorted; [apply descending_total | apply descending_trans]).
  assert (Hsome : forall w, latestBodyWeight legacy rows = Some w ->
            exists row t,
              In row rows /\ parse (timestamp row) = Some t /\ weighed row w /\
              forall row' t' w',
                In row' rows -> parse (timestamp row') = Some t' -> weighed row' w' ->
                (t' <= t)%Z).
  { intros w Hw. unfold latestBodyWeight in Hw. fold dated in Hw.
    destruct (first_body_weight_some dated w Hw)
      as (pre & row & t & post & Esplit & Hweighed & Hpre).
    assert (Hrow : In (row, t) dated)
      by (rewrite Esplit; apply in_or_app; right; left; reflexivity).
    apply Hin in Hrow. destruct Hrow as [Hrow Ht].
    exists row, t. repeat split; try assumption; try apply Hweighed.
    intros row' t' w' Hr' Ht' Hw'.
    assert (Hd : In (row', t') dated) by (apply Hin; split; assumption).
    rewrite Esplit in Hd, Hsorted. apply in_app_or in Hd.
    destruct Hd as [Hd | [E | Hd]].
    - exfalso. apply (Hpre row' t' w' Hd Hw').
    - injection E as _ <-. lia.
    - pose proof (sorted_app_later _ _ _ _ Hsorted) as Hlater.
      rewrite Forall_forall in Hlater. specialize (Hlater _ Hd).
      unfold before, descending in Hlater. cbn [snd] in Hlater. lia. }
  split; [exact Hin |]. split; [exact Hsorted |]. split; [reflexivity |].
  split; [| split; [exact Hsome |]].
  - split.
    + intros Hnone row t w Hr Ht. unfold latestBodyWeight in Hnone. fold dated in Hnone.
      apply (first_body_weight_none dated Hnone row t w). apply Hin. split; assumption.
    + intros Hno. destruct (latestBodyWeight legacy rows) as [w |] eqn:E; [| reflexivity].
      destruct (Hsome w eq_refl) as (row & t & Hr & Ht & Hw & _).
      exfalso. apply (Hno row t w Hr Ht Hw).
  - split; [| split].
    + intros Hnone. unfold ratioSummary. rewrite Hnone. reflexivity.
    + intros w Hw. unfold ratioSummary. rewrite Hw.
      destruct (Hsome w Hw) as (row & t & _ & _ & (_ & _ & Hpos) & _).
      unfold bestStatsRatios. rewrite (FloatFacts.ltb_leb_false _ _ Hpos). reflexivity.
    + split.
      * intros w Hw.
        assert (Hr : forall best, ratio_of w best
                       (option_map (fun x => ChartCard.round2 (x / w)%float) best)).
        { intros [x |]; cbn [ratio_of option_map]; [| reflexivity].
          eexists. split; [reflexivity | apply FloatFacts.round2_rounds]. }
        unfold ratioSummary. rewrite Hw.
        destruct (Hsome w Hw) as (row & t & _ & _ & (_ & _ & Hpos) & _).
        unfold bestStatsRatios. rewrite (FloatFacts.ltb_leb_false _ _ Hpos).
        cbn [maxBP maxSQ maxDL total]. repeat split; apply Hr.
      * intros stats w Hw. unfold bestStatsRatios. rewrite Hw. reflexivity.
Qed.

(** C7: in the output of the sort and fill, which keeps every timestamp of
    the input, each row whose timestamp does not parse (the empty string
    is one) comes after every row whose timestamp parses; the latest row
    is a row of the largest parsed timestamp among the rows that parse,
    and is absent when none does. *)
Theorem unparseable_rows_last_and_never_latest :
  forall (legacy : string -> option Z) (rows : list LogRow),
    let parse := TimeRange.parseTimestamp legacy in
    let out := ChartCard.sortAndFillBpSqDl legacy rows in
    parse EmptyString = None /\
    Permutation (map timestamp out) (map timestamp rows) /\
    (forall i j a b,
       nth_error out i = Some a -> nth_error out j = Some b ->
       parse (timestamp a) = None -> parse (timestamp b) <> None ->
       (j < i)%nat) /\
    (getLatestRow legacy rows = None <->
       forall row, In row rows -> parse (timestamp row) = None) /\
    (forall latest, getLatestRow legacy rows = Some latest ->
       In latest rows /\
       exists t, parse (timestamp latest) = Some t /\
         forall row t', In row rows -> parse (timestamp row) = Some t' -> (t' <= t)%Z).
Proof.
  intros legacy rows parse out.
  split; [reflexivity |]. split; [| split].
  - subst out. unfold ChartCard.sortAndFillBpSqDl.
    rewrite SeriesFacts.fill_rows_timestamps.
    apply Permutation_map, SortFacts.Array_sort_perm.
  - intros i j a b Ha Hb Hpa Hpb.
    pose proof (SeriesFacts.sortAndFill_sorted legacy rows) as Hs. fold out in Hs.
    destruct (Nat.lt_trichotomy i j) as [Hlt | [-> | Hgt]]; [| | exact Hgt].
    + pose proof (SortFacts.sorted_nth _ _ Hs i j a b Hlt Ha Hb) as H.
      unfold before, ChartCard.by_time, ChartCard.time_key in H.
      fold parse in H. rewrite Hpa in H.
      destruct (parse (timestamp b)); [cbn in H; lia | congruence].
    + rewrite Ha in Hb. injection Hb as <-. congruence.
  - assert (Hsorted : forall wd, StronglySorted (before ascending) (Array_sort ascending wd))
      by (intros wd; apply SortFacts.Array_sort_sorted;
          [apply ascending_total | apply ascending_trans]).
    assert (Hperm : forall wd, Permutation (Array_sort ascending wd) wd)
      by (intros wd; apply SortFacts.Array_sort_perm).
    unfold getLatestRow. split.
    + split.
      * destruct rows as [| r rest]; [intros _ row [] |].
        destruct (withDate legacy (r :: rest)) as [| x wd] eqn:E.
        -- intros _. apply withDate_nil. exact E.
        -- intros H. exfalso.
           destruct (last_of (Array_sort ascending (x :: wd))) as [y |] eqn:El;
             [discriminate H |].
           apply last_of_none in El.
           pose proof (Hperm (x :: wd)) as P. rewrite El in P.
           apply Permutation_nil in P. discriminate P.
      * intros H. apply withDate_nil in H. rewrite H.
        destruct rows; reflexivity.
    + intros latest H.
      destruct rows as [| r rest]; [discriminate H |].
      destruct (withDate legacy (r :: rest)) as [| x wd] eqn:E; [discriminate H |].
      destruct (last_of (Array_sort ascending (x :: wd))) as [[row t] |] eqn:El;
        [| discriminate H].
      cbn [option_map fst] in H. injection H as <-.
      assert (Hin : In (row, t) (withDate legacy (r :: rest))).
      { rewrite E. apply (Permutation_in _ (Hperm (x :: wd))). apply last_of_In, El. }
      apply withDate_In in Hin. destruct Hin as [Hin Ht].
      split; [exact Hin |]. exists t. split; [exact Ht |].
      intros row' t' Hr' Ht'.
      assert (Hin' : In (row', t') (Array_sort ascending (x :: wd))).
      { apply (Permutation_in _ (Permutation_sym (Hperm (x :: wd)))).
        rewrite <- E. apply withDate_In. split; assumption. }
      pose proof (sorted_last_max ascending _ (row, t)
                    (fun a => match ascending_total a a with
                              | or_introl h | or_intror h => h
                              end)
                    (Hsorted (x :: wd)) El _ Hin') as Hmax.
      unfold before, ascending in Hmax. cbn [snd] in Hmax. lia.
Qed.

End SummaryFacts.

(* ================================================================== *)
(** ** The Timestamp Normalizer and the Row Decoder                     *)
(* ================================================================== *)

Module DecoderFacts.
Import TimeRange.

Lemma is_empty_eq (s : string) : is_empty s = true -> s = EmptyString.
Proof. destruct s; [reflexivity | discriminate]. Qed.

Lemma empty_is_no_epoch : is_epoch (StringToNumber EmptyString) = false.
Proof. vm_compute. reflexivity. Qed.

(** A number with a fraction, in the range read as milliseconds: the Date
    holds whole milliseconds, 1700000000000 and not 1700000000000.5. *)
Lemma fractional_epoch_is_truncated :
  ~ reads_as_epoch strict_engine "1700000000000.5".
Proof.
  unfold reads_as_epoch. intros H.
  destruct H as (t & Hp & Ht); try (vm_compute; reflexivity).
  vm_compute in Hp. injection Hp as <-.
  apply (f_equal (fun x => PrimFloat.eqb x 1700000000000)) in Ht.
  vm_compute in Ht. discriminate Ht.
Qed.

(** A negative number is not read as an epoch, whatever its magnitude: the
    string goes to [Date.parse]. *)
Lemma negative_number_is_no_epoch :
  is_epoch (StringToNumber "-1700000000") = false /\
  parseTimestamp strict_engine "-1700000000" = None.
Proof. split; vm_compute; reflexivity. Qed.

(** The epoch branch of the parser, for a string whose trimmed form
    converts to a number of the epoch range. *)
Lemma parse_epoch_branch (legacy : string -> option Z) (s : string) :
  is_epoch (StringToNumber (trim s)) = true ->
  parseTimestamp legacy s = Some (truncZ (epoch_ms (StringToNumber (trim s)))).
Proof.
  intros He. unfold parseTimestamp.
  destruct (is_empty s) eqn:Es.
  - apply is_empty_eq in Es. subst s.
    change (trim EmptyString) with EmptyString in He. rewrite empty_is_no_epoch in He. discriminate He.
  - destruct (is_empty (trim s)) eqn:Et.
    + apply is_empty_eq in Et. rewrite Et in He.
      rewrite empty_is_no_epoch in He. discriminate He.
    + rewrite He. apply FloatFacts.epoch_ms_valid, He.
Qed.

(** C2: for every input string whose trimmed form converts to a finite
    number n with 1e9 <= n < 1e15 (n itself, not its magnitude), the parse
    is the time value of [new Date(ms)], where ms is n * 1000 when
    n < 1e12 and n otherwise: that many milliseconds since the epoch, with
    the fraction of a millisecond dropped.  When n is a whole number the
    time is n seconds since the epoch below 10^12, and n milliseconds
    since the epoch from 10^12 on. *)
Theorem epoch_strings_parse_as_epoch :
  forall (legacy : string -> option Z) (s : string),
    let n := StringToNumber (trim s) in
    Number_isFinite n = true -> (1e9 <=? n)%float = true -> (n <? 1e15)%float = true ->
    parseTimestamp legacy s
      = Some (truncZ (if (n <? 1e12)%float then (n * 1000)%float else n)) /\
    forall z : Z,
      n = Z2float z -> (10 ^ 9 <= z < 10 ^ 15)%Z ->
      parseTimestamp legacy s = Some (if (z <? 10 ^ 12)%Z then (z * 1000)%Z else z).
Proof.
  intros legacy s n Hfin H9 H15.
  assert (He : is_epoch n = true) by (unfold is_epoch; rewrite Hfin, H9, H15; reflexivity).
  pose proof (parse_epoch_branch legacy s He) as Hp. fold n in Hp.
  split; [exact Hp |].
  intros z Hn Hz. rewrite Hp. f_equal.
  rewrite Hn in He |- *. apply FloatFacts.whole_epoch_ms; assumption.
Qed.

(** Thirteen digits are milliseconds, and a fraction of a second is kept to
    the millisecond. *)
Lemma epoch_examples :
  parseTimestamp strict_engine "1700000000000" = Some 1700000000000%Z /\
  parseTimestamp strict_engine "1700000000.25" = Some 1700000000250%Z /\
  parseTimestamp strict_engine "999999999" = None.
Proof. repeat split; vm_compute; reflexivity. Qed.

(** Ten digits of seconds, with blanks around. *)
Lemma epoch_strings_parse_as_epoch_witness :
  parseTimestamp strict_engine " 1700000000 " = Some 1700000000000%Z.
Proof.
  destruct (epoch_strings_parse_as_epoch strict_engine " 1700000000 ") as [H _];
    [vm_compute; reflexivity ..|].
  exact H.
Defined.

Lemma digit_char_is_digit (d : Z) : is_digit (digit_char d) = true.
Proof.
  unfold is_digit, digit_char.
  pose proof (Z.mod_pos_bound d 10 ltac:(lia)) as Hd.
  rewrite nat_ascii_embedding by lia.
  apply andb_true_iff. split; apply Nat.leb_le; lia.
Qed.

Lemma digit_char_no_sign (d : Z) :
  Ascii.eqb (digit_char d) "+" || Ascii.eqb (digit_char d) "-" = false.
Proof.
  unfold digit_char.
  pose proof (Z.mod_pos_bound d 10 ltac:(lia)) as Hd.
  apply orb_false_iff. split; apply Ascii.eqb_neq; intros E;
    apply (f_equal nat_of_ascii) in E; rewrite nat_ascii_embedding in E by lia;
    cbn in E; lia.
Qed.

(** What [toISOString] writes is an ISO-8601 date-time to the millisecond. *)
Lemma toISOString_is_iso (t : Z) : is_iso_ms (toISOString t) = true.
Proof.
  unfold toISOString. destruct (civil_from_days (t / msPerDay)) as [[y m] d].
  destruct ((0 <=? y)%Z && (y <=? 9999)%Z); [| destruct (y <? 0)%Z];
    cbn [pad is_iso_ms is_iso_tail Ascii.eqb Bool.eqb orb];
    rewrite ?digit_char_no_sign, ?digit_char_is_digit; reflexivity.
Qed.

Lemma empty_value_is_no_epoch (x : cell_value) :
  is_empty_string x = true -> is_epoch (ToNumber x) = false.
Proof.
  destruct x as [str | n]; [| discriminate]. cbn [is_empty_string ToNumber].
  intros H. apply is_empty_eq in H. subst str. apply empty_is_no_epoch.
Qed.

Section Engine.
Variable Number_toString : float -> string.

(** The three ways out of [getCellTimestamp], by the raw value. *)
Lemma getCellTimestamp_cases (cell : GvizCell) :
  getCellTimestamp Number_toString (Some cell) =
    match raw_of cell with
    | None => Some EmptyString
    | Some x =>
        if is_empty_string x then Some EmptyString
        else if is_epoch (ToNumber x)
             then Some (toISOString (truncZ (epoch_ms (ToNumber x))))
             else Some (display_of Number_toString cell)
    end.
Proof.
  unfold getCellTimestamp, raw_of, display_of.
  destruct (match v cell with Some x => Some x | None => option_map VString (f cell) end)
    as [x |]; [| reflexivity].
  destruct (is_empty_string x); [reflexivity |].
  destruct (is_epoch (ToNumber x)) eqn:He; [| destruct (f cell), (v cell); reflexivity].
  unfold Date_toISOString. rewrite (FloatFacts.epoch_ms_valid _ He). reflexivity.
Qed.
End Engine.

(** C10: for every number num with 1e9 <= num < 1e15 the millisecond value
    is a valid time value, so [new Date(ms)] is never an invalid Date: the
    parser never returns null for a string that converts to such a number,
    and the decoder always writes an ISO string for a cell whose value
    converts to one. *)
Theorem epoch_range_always_valid :
  forall num : float,
    Number_isFinite num = true -> (1e9 <=? num)%float = true ->
    (num <? 1e15)%float = true ->
    (exists t, TimeClip (epoch_ms num) = Some t) /\
    (forall (legacy : string -> option Z) (s : string),
       StringToNumber (trim s) = num -> parseTimestamp legacy s <> None) /\
    (forall (Number_toString : float -> string) (cell : GvizCell) (x : cell_value),
       raw_of cell = Some x -> ToNumber x = num ->
       exists t,
         Date_toISOString (epoch_ms num) = Some (toISOString t) /\
         getCellTimestamp Number_toString (Some cell) = Some (toISOString t) /\
         is_iso_ms (toISOString t) = true).
Proof.
  intros num Hfin H9 H15.
  assert (He : is_epoch num = true) by (unfold is_epoch; rewrite Hfin, H9, H15; reflexivity).
  pose proof (FloatFacts.epoch_ms_valid num He) as Hclip.
  split; [eexists; exact Hclip |]. split.
  - intros legacy s Hs.
    rewrite (parse_epoch_branch legacy s); [discriminate | rewrite Hs; exact He].
  - intros Number_toString cell x Hraw Hx.
    exists (truncZ (epoch_ms num)).
    split; [unfold Date_toISOString; rewrite Hclip; reflexivity |].
    split; [| apply toISOString_is_iso].
    rewrite getCellTimestamp_cases, Hraw, Hx, He.
    destruct (is_empty_string x) eqn:Ee; [| reflexivity].
    apply empty_value_is_no_epoch in Ee. rewrite Hx, He in Ee. discriminate Ee.
Qed.

(** The millisecond value of the epoch 1700000000 is a valid time value. *)
Lemma epoch_range_always_valid_witness :
  exists t, TimeClip (epoch_ms 1700000000%float) = Some t.
Proof.
  apply (epoch_range_always_valid 1700000000%float); vm_compute; reflexivity.
Defined.

(** C8: decoding a cell never throws.  A numeric cell that is absent, has
    no value, has the empty string, or converts to a number that is not
    finite decodes to [null], and any other to the number it converts to.
    A timestamp cell that is absent or whose raw value is missing or empty
    decodes to the empty string; one whose raw value converts to a number
    in [1e9, 1e15) decodes to the ISO-8601 string, to the millisecond, of
    that epoch; any other decodes to its display form as it is, the
    formatted string when the cell has one and the value as a string
    otherwise.  The result is always a string, and a row always decodes. *)
Theorem decoder_recovers_locally :
  forall Number_toString : float -> string,
    getCellNumber None = None /\
    (forall cell, v cell = None -> getCellNumber (Some cell) = None) /\
    (forall cell, v cell = Some (VString EmptyString) -> getCellNumber (Some cell) = None) /\
    (forall cell x,
       v cell = Some x -> Number_isFinite (ToNumber x) = false ->
       getCellNumber (Some cell) = None) /\
    (forall cell x,
       v cell = Some x -> is_empty_string x = false ->
       Number_isFinite (ToNumber x) = true ->
       getCellNumber (Some cell) = Some (ToNumber x)) /\
    getCellTimestamp Number_toString None = Some EmptyString /\
    (forall cell,
       raw_of cell = None \/ raw_of cell = Some (VString EmptyString) ->
       getCellTimestamp Number_toString (Some cell) = Some EmptyString) /\
    (forall cell x,
       raw_of cell = Some x -> is_epoch (ToNumber x) = true ->
       getCellTimestamp Number_toString (Some cell)
         = Some (toISOString (truncZ (epoch_ms (ToNumber x)))) /\
       is_iso_ms (toISOString (truncZ (epoch_ms (ToNumber x)))) = true) /\
    (forall cell x,
       raw_of cell = Some x -> is_empty_string x = false ->
       is_epoch (ToNumber x) = false ->
       getCellTimestamp Number_toString (Some cell)
         = Some (display_of Number_toString cell)) /\
    (forall c, exists str, getCellTimestamp Number_toString c = Some str) /\
    (forall cells, exists row, decodeRow Number_toString cells = Some row).
Proof.
  intros Number_toString.
  assert (Htotal : forall c, exists str, getCellTimestamp Number_toString c = Some str).
  { intros [cell |]; [| exists EmptyString; reflexivity].
    rewrite getCellTimestamp_cases.
    destruct (raw_of cell) as [x |]; [| exists EmptyString; reflexivity].
    destruct (is_empty_string x); [exists EmptyString; reflexivity |].
    destruct (is_epoch (ToNumber x)); eexists; reflexivity. }
  split; [reflexivity |].
  split; [intros cell Hv; unfold getCellNumber; rewrite Hv; reflexivity |].
  split; [intros cell Hv; unfold getCellNumber; rewrite Hv; reflexivity |].
  split.
  { intros cell x Hv Hn. unfold getCellNumber. rewrite Hv, Hn.
    destruct (is_empty_string x); reflexivity. }
  split.
  { intros cell x Hv He Hn. unfold getCellNumber. rewrite Hv, He, Hn. reflexivity. }
  split; [reflexivity |].
  split.
  { intros cell [Hr | Hr]; rewrite getCellTimestamp_cases, Hr; reflexivity. }
  split.
  { intros cell x Hr He. split; [| apply toISOString_is_iso].
    rewrite getCellTimestamp_cases, Hr, He.
    destruct (is_empty_string x) eqn:Ee; [| reflexivity].
    apply empty_value_is_no_epoch in Ee. rewrite He in Ee. discriminate Ee. }
  split.
  { intros cell x Hr Hne He. rewrite getCellTimestamp_cases, Hr, Hne, He. reflexivity. }
  split; [exact Htotal |].
  intros cells. unfold decodeRow.
  destruct (Htotal (cell_at cells 0)) as [str ->]. eexists. reflexivity.
Qed.

End DecoderFacts.

(* ================================================================== *)
(** ** The wire format: the wrapper and the table                       *)
(* ================================================================== *)

Module WireFacts.
Local Open Scope string_scope.

Lemma length_append (a b : string) :
  String.length (a ++ b) = (String.length a + String.length b)%nat.
Proof. induction a as [| c a IH]; cbn; [reflexivity | rewrite IH; reflexivity]. Qed.

Lemma substring_from_append (a b : string) :
  substring_from (String.length a) (a ++ b) = b.
Proof. induction a as [| c a IH]; cbn; [destruct b; reflexivity | exact IH]. Qed.

Lemma first_units_append (a b : string) :
  first_units (String.length a) (a ++ b) = a.
Proof.
  induction a as [| c a IH]; cbn; [destruct b; reflexivity | rewrite IH; reflexivity].
Qed.

Lemma substring_from_length (n : nat) (s : string) :
  String.length (substring_from n s) = (String.length s - n)%nat.
Proof.
  revert s. induction n as [| n IH]; intros s; cbn.
  - lia.
  - destruct s as [| c s]; cbn; [reflexivity | apply IH].
Qed.

Lemma first_units_length (n : nat) (s : string) :
  (n <= String.length s)%nat -> String.length (first_units n s) = n.
Proof.
  revert s. induction n as [| n IH]; intros s Hn; cbn; [reflexivity |].
  destruct s as [| c s]; cbn in *; [lia |]. rewrite IH by lia. reflexivity.
Qed.

(** X1: stripping the wrapper gives back exactly what lies between a
    prefix of 47 code units and a suffix of 2; in general the result is 49
    code units shorter than the text, and empty when the text has no more
    than 49. *)
Theorem unwrap_recovers_payload :
  forall prefix body suffix : string,
    String.length prefix = 47%nat -> String.length suffix = 2%nat ->
    unwrap (prefix ++ body ++ suffix) = body /\
    forall text : string,
      String.length (unwrap text) = (String.length text - 49)%nat.
Proof.
  intros prefix body suffix Hp Hs. split.
  - unfold unwrap. rewrite <- Hp, substring_from_append.
    unfold slice_off_end. rewrite length_append, Hs.
    replace (String.length body + 2 - 2)%nat with (String.length body) by lia.
    apply first_units_append.
  - intros text. unfold unwrap, slice_off_end.
    rewrite first_units_length; rewrite substring_from_length; lia.
Qed.

(** The wrapper of the gviz endpoint around a small payload. *)
Lemma unwrap_recovers_payload_witness :
  unwrap ("/*O_o*/ google.visualization.Query.setResponse(" ++ "{}" ++ ");") = "{}".
Proof.
  apply (unwrap_recovers_payload
           "/*O_o*/ google.visualization.Query.setResponse(" "{}" ");");
    reflexivity.
Defined.

Section Engine.
Variable Number_toString : float -> string.

Lemma getCellNumber_finite (c : option GvizCell) :
  finite_or_absent (getCellNumber c).
Proof.
  intros n. unfold getCellNumber.
  destruct c as [cell |]; [| discriminate].
  destruct (v cell) as [x |]; [| discriminate].
  destruct (is_empty_string x); [discriminate |].
  destruct (Number_isFinite (ToNumber x)) eqn:E; [| discriminate].
  intros H. injection H as <-. exact E.
Qed.

Lemma decodeRow_total (cells : list (option GvizCell)) :
  exists ts,
    getCellTimestamp Number_toString (cell_at cells 0) = Some ts /\
    decodeRow Number_toString cells =
      Some {| timestamp := ts;
              bp := getCellNumber (cell_at cells 1);
              sq := getCellNumber (cell_at cells 2);
              dl := getCellNumber (cell_at cells 3);
              bodyWeight := getCellNumber (cell_at cells 4) |}.
Proof.
  unfold decodeRow.
  destruct (getCellTimestamp Number_toString (cell_at cells 0)) as [ts |] eqn:E.
  - exists ts. split; reflexivity.
  - exfalso. destruct (cell_at cells 0) as [cell |]; [| discriminate E].
    rewrite DecoderFacts.getCellTimestamp_cases in E.
    destruct (raw_of cell) as [x |]; [| discriminate E].
    destruct (is_empty_string x); [discriminate E |].
    destruct (TimeRange.is_epoch (ToNumber x)); discriminate E.
Qed.

Lemma decodeRows_spec (rows : list (option (list (option GvizCell)))) :
  exists result,
    decodeRows Number_toString rows = Some result /\
    Forall2 (fun row decoded =>
               decodeRow Number_toString (cells_of row) = Some decoded)
      rows result.
Proof.
  induction rows as [| row rest (result & E & H)]; cbn [decodeRows].
  - exists []. split; [reflexivity | constructor].
  - destruct (decodeRow_total (cells_of row)) as (ts & _ & Hd).
    fold (cells_of row). rewrite Hd, E.
    eexists. split; [reflexivity |]. constructor; assumption.
Qed.
End Engine.

(** X2: decoding a table never fails and skips the header: the result has
    one row for every record after the first, in order, each the decoding
    of that record alone; a record with missing cells decodes them to the
    empty timestamp and to [null]; and every number of a decoded row is
    finite. *)
Theorem decodeTable_skips_header :
  forall (Number_toString : float -> string)
         (rows : list (option (list (option GvizCell)))),
    exists result,
      decodeTable Number_toString rows = Some result /\
      List.length result = (List.length rows - 1)%nat /\
      (forall i row,
         nth_error rows (S i) = Some row ->
         exists decoded,
           nth_error result i = Some decoded /\
           decodeRow Number_toString (cells_of row) = Some decoded) /\
      Forall clean_row result /\
      decodeRow Number_toString [] = Some (log EmptyString None None None None).
Proof.
  intros Number_toString rows. unfold decodeTable.
  destruct (decodeRows_spec Number_toString (tl rows)) as (result & E & H).
  exists result. split; [exact E |].
  split; [rewrite <- (Forall2_length H); destruct rows; cbn; lia |].
  split; [| split; [| reflexivity]].
  - intros i row Hi.
    assert (Hi' : nth_error (tl rows) i = Some row) by (destruct rows; [destruct i |]; exact Hi).
    clear Hi E. revert i Hi'.
    induction H as [| r d l l' Hd _ IH]; intros i Hi.
    + destruct i; discriminate Hi.
    + destruct i as [| i]; cbn [nth_error] in *.
      * injection Hi as <-. exists d. split; [reflexivity | exact Hd].
      * apply IH, Hi.
  - clear E. induction H as [| r d l l' Hd _ IH]; constructor; [| exact IH].
    destruct (decodeRow_total Number_toString (cells_of r)) as (ts & _ & Hd').
    rewrite Hd' in Hd. injection Hd as <-.
    repeat split; apply getCellNumber_finite.
Qed.

End WireFacts.

(* ================================================================== *)
(** ** More on the Timestamp Normalizer                                 *)
(* ================================================================== *)

Module ParseFacts.
Import TimeRange.
Local Open Scope string_scope.

Lemma trimStart_head (s : string) :
  trimStart s = EmptyString \/
  exists c r, trimStart s = String c r /\ is_ws c = false.
Proof.
  induction s as [| c s IH]; cbn [trimStart]; [left; reflexivity |].
  destruct (is_ws c) eqn:E; [exact IH |].
  right. exists c, s. split; [reflexivity | exact E].
Qed.

Lemma trimEnd_again (s : string) : trimEnd (trimEnd s) = trimEnd s.
Proof.
  induction s as [| c s IH]; [reflexivity |]. cbn [trimEnd].
  destruct (trimEnd s) as [| d t] eqn:E.
  - destruct (is_ws c) eqn:Ec; [reflexivity |]. cbn [trimEnd]. rewrite Ec. reflexivity.
  - cbn [trimEnd]. cbn [trimEnd] in IH. rewrite IH. reflexivity.
Qed.

Lemma trimEnd_head (c : ascii) (r : string) :
  is_ws c = false -> exists u, trimEnd (String c r) = String c u.
Proof.
  intros Hc. cbn [trimEnd]. destruct (trimEnd r) as [| d t].
  - rewrite Hc. eexists. reflexivity.
  - eexists. reflexivity.
Qed.

Lemma trim_again (s : string) : trim (trim s) = trim s.
Proof.
  unfold trim. destruct (trimStart_head s) as [-> | (c & r & -> & Hc)]; [reflexivity |].
  destruct (trimEnd_head c r Hc) as [u Eu]. rewrite Eu.
  cbn [trimStart]. rewrite Hc, <- Eu. apply trimEnd_again.
Qed.

(** X3: blanks around a timestamp never change how it parses: the parse
    of a string is the parse of its trimmed form, so a string of blanks
    alone parses to nothing. *)
Theorem parseTimestamp_ignores_blanks :
  forall (legacy : string -> option Z) (s : string),
    parseTimestamp legacy s = parseTimestamp legacy (trim s) /\
    (trim s = EmptyString -> parseTimestamp legacy s = None).
Proof.
  intros legacy s.
  assert (Hblank : trim s = EmptyString -> parseTimestamp legacy s = None).
  { intros E. unfold parseTimestamp. rewrite E. destruct (is_empty s); reflexivity. }
  split; [| exact Hblank].
  destruct (is_empty (trim s)) eqn:Et.
  - apply DecoderFacts.is_empty_eq in Et. rewrite (Hblank Et), Et. reflexivity.
  - unfold parseTimestamp. rewrite trim_again, Et.
    destruct (is_empty s) eqn:Es; [| reflexivity].
    apply DecoderFacts.is_empty_eq in Es. subst s. discriminate Et.
Qed.

End ParseFacts.

(* ================================================================== *)
(** ** More on the Series Builder                                       *)
(* ================================================================== *)

Module FillFacts.
Import ChartCard.
Local Open Scope list_scope.

(** Once a lift is remembered, every row emitted carries it. *)
Lemma fill_rows_remembered (lift : LogRow -> option float) (last : Last -> option float)
    (rows : list LogRow) :
  (forall st row, lift (snd (fill_row st row)) = last (fst (fill_row st row))) ->
  (forall st row, present (last st) -> present (last (fst (fill_row st row)))) ->
  forall st, present (last st) -> Forall (fun out => present (lift out)) (fill_rows st rows).
Proof.
  intros Hout Hkeep. induction rows as [| row rest IH]; intros st Hst; cbn [fill_rows].
  - constructor.
  - specialize (Hout st row). specialize (Hkeep st row Hst).
    destruct (fill_row st row) as [st' out]. cbn [fst snd] in *.
    constructor; [rewrite Hout; exact Hkeep | apply IH, Hkeep].
Qed.

Lemma fill_rows_later (lift : LogRow -> option float) (last : Last -> option float)
    (rows : list LogRow) :
  (forall st row, lift (snd (fill_row st row)) = last (fst (fill_row st row))) ->
  (forall st row, present (last st) -> present (last (fst (fill_row st row)))) ->
  forall st i j a b,
    (i <= j)%nat ->
    nth_error (fill_rows st rows) i = Some a -> nth_error (fill_rows st rows) j = Some b ->
    present (lift a) -> present (lift b).
Proof.
  intros Hout Hkeep. induction rows as [| row rest IH]; intros st i j a b Hij Ha Hb Hp.
  - destruct i; discriminate Ha.
  - cbn [fill_rows] in Ha, Hb. pose proof (Hout st row) as Ho.
    destruct (fill_row st row) as [st' out]. cbn [fst snd] in Ho.
    destruct i as [| i]; cbn [nth_error] in Ha.
    + injection Ha as <-. destruct j as [| j]; cbn [nth_error] in Hb.
      * injection Hb as <-. exact Hp.
      * rewrite Ho in Hp.
        pose proof (fill_rows_remembered lift last rest Hout Hkeep st' Hp) as Hall.
        apply (SeriesFacts.Forall_nth_error _ _ _ _ Hall Hb).
    + destruct j as [| j]; [lia |]. cbn [nth_error] in Hb.
      apply (IH st' i j a b); [lia | assumption | assumption | assumption].
Qed.

Lemma emitted_is_remembered (st : Last) (row : LogRow) :
  bp (snd (fill_row st row)) = lastBp (fst (fill_row st row)) /\
  sq (snd (fill_row st row)) = lastSq (fst (fill_row st row)) /\
  dl (snd (fill_row st row)) = lastDl (fst (fill_row st row)).
Proof.
  unfold fill_row. cbn [fst snd bp sq dl lastBp lastSq lastDl].
  destruct (toNum (field (bp row))), (toNum (field (sq row))),
    (toNum (field (dl row))); repeat split; reflexivity.
Qed.

Lemma remembered_stays (st : Last) (row : LogRow) :
  (present (lastBp st) -> present (lastBp (fst (fill_row st row)))) /\
  (present (lastSq st) -> present (lastSq (fst (fill_row st row)))) /\
  (present (lastDl st) -> present (lastDl (fst (fill_row st row)))).
Proof.
  unfold fill_row, present. cbn [fst lastBp lastSq lastDl].
  destruct (toNum (field (bp row))), (toNum (field (sq row))),
    (toNum (field (dl row))); repeat split; intros H; (exact H || discriminate).
Qed.

(** X4: once a lift has a value in the filled rows it has one in every
    later row, and so has the total of the chart once it has one. *)
Theorem filled_stays_filled :
  forall (legacy : string -> option Z) (rows : list LogRow) (i j : nat)
         (a b : LogRow),
    (i <= j)%nat ->
    nth_error (sortAndFillBpSqDl legacy rows) i = Some a ->
    nth_error (sortAndFillBpSqDl legacy rows) j = Some b ->
    (present (bp a) -> present (bp b)) /\
    (present (sq a) -> present (sq b)) /\
    (present (dl a) -> present (dl b)) /\
    forall dataKey weightRatio,
      present (pt_total (chartPoint dataKey weightRatio a)) ->
      present (pt_total (chartPoint dataKey weightRatio b)).
Proof.
  intros legacy rows i j a b Hij Ha Hb.
  assert (Hbp : present (bp a) -> present (bp b)).
  { apply (fill_rows_later bp lastBp _
             (fun st row => proj1 (emitted_is_remembered st row))
             (fun st row => proj1 (remembered_stays st row)) _ i j a b Hij Ha Hb). }
  assert (Hsq : present (sq a) -> present (sq b)).
  { apply (fill_rows_later sq lastSq _
             (fun st row => proj1 (proj2 (emitted_is_remembered st row)))
             (fun st row => proj1 (proj2 (remembered_stays st row))) _ i j a b Hij Ha Hb). }
  assert (Hdl : present (dl a) -> present (dl b)).
  { apply (fill_rows_later dl lastDl _
             (fun st row => proj2 (proj2 (emitted_is_remembered st row)))
             (fun st row => proj2 (proj2 (remembered_stays st row))) _ i j a b Hij Ha Hb). }
  split; [exact Hbp |]. split; [exact Hsq |]. split; [exact Hdl |].
  intros dataKey weightRatio.
  pose proof (SeriesFacts.fill_rows_finite (Array_sort (by_time legacy) rows)
                no_last SeriesFacts.no_last_finite) as Hfin.
  destruct (SeriesFacts.Forall_nth_error _ _ _ _ Hfin Ha) as (A1 & A2 & A3).
  destruct (SeriesFacts.Forall_nth_error _ _ _ _ Hfin Hb) as (B1 & B2 & B3).
  unfold chartPoint. cbn [pt_total].
  rewrite !SeriesFacts.finite_or_null_finite by assumption.
  unfold present in *. intros Ht.
  assert (bp a <> None /\ sq a <> None /\ dl a <> None) as (P1 & P2 & P3).
  { destruct (bp a), (sq a), (dl a); repeat split; congruence. }
  specialize (Hbp P1). specialize (Hsq P2). specialize (Hdl P3).
  destruct (bp b), (sq b), (dl b); congruence.
Qed.

(** The bench press of the first row of the scenario is still there at the
    second, which records none. *)
Lemma filled_stays_filled_witness :
  present (bp (log "2024-02-01" (Some 80%float) (Some 100%float) None None)).
Proof.
  destruct (filled_stays_filled strict_engine scenario_rows 0 1
              (log "2024-01-01" (Some 80%float) None None None)
              (log "2024-02-01" (Some 80%float) (Some 100%float) None None))
    as (H & _); [lia | vm_compute; reflexivity | vm_compute; reflexivity |].
  apply H. discriminate.
Defined.

Lemma fill_rows_stamps (rows : list LogRow) :
  forall st, map stamp (fill_rows st rows) = map stamp rows.
Proof.
  induction rows as [| row rest IH]; intros st; cbn; [reflexivity |].
  rewrite IH. reflexivity.
Qed.

(** X5: the series has one point for every input row, in the order of the
    sorted rows, with the row's own timestamp; the body weight of a point
    is its own row's body weight when that is finite and is absent
    otherwise: it is never carried over from another row.  For the body
    weight chart the ratio switch changes neither the points nor the
    axis. *)
Theorem series_keeps_rows_and_weights :
  forall (legacy : string -> option Z) (dataKey : NumericDataKey)
         (weightRatio : bool) (rows : list LogRow),
    let sorted := Array_sort (by_time legacy) rows in
    let points := chartData legacy dataKey weightRatio rows in
    List.length points = List.length rows /\
    map pt_timestamp points = map timestamp sorted /\
    map pt_bodyWeight points = map (fun row => finite_or_null (bodyWeight row)) sorted /\
    chartData legacy key_bodyWeight weightRatio rows
      = chartData legacy key_bodyWeight false rows /\
    domain legacy key_bodyWeight weightRatio rows
      = domain legacy key_bodyWeight false rows.
Proof.
  intros legacy dataKey weightRatio rows sorted points.
  assert (Hst : map stamp (sortAndFillBpSqDl legacy rows) = map stamp sorted)
    by apply fill_rows_stamps.
  assert (Hbody : forall w, chartData legacy key_bodyWeight w rows
                            = chartData legacy key_bodyWeight false rows).
  { intros w. unfold chartData. apply map_ext. intros row.
    unfold chartPoint, useRatio. cbn [in_RATIO_KEYS is_bodyWeight negb andb].
    rewrite andb_false_r. cbn [andb]. destruct (toNum (field (bodyWeight row))); reflexivity. }
  split; [| split; [| split; [| split]]].
  - subst points. unfold chartData, sortAndFillBpSqDl.
    rewrite length_map, SeriesFacts.fill_rows_length.
    apply Permutation_length, SortFacts.Array_sort_perm.
  - subst points. unfold chartData. rewrite map_map. cbn [chartPoint pt_timestamp].
    apply (f_equal (map fst)) in Hst. rewrite !map_map in Hst. exact Hst.
  - subst points. unfold chartData. rewrite map_map. cbn [chartPoint pt_bodyWeight].
    apply (f_equal (map (fun p => finite_or_null (snd p)))) in Hst.
    rewrite !map_map in Hst. cbn [stamp snd] in Hst. rewrite <- Hst.
    apply map_ext. intros row. destruct (bodyWeight row); reflexivity.
  - apply Hbody.
  - unfold domain. rewrite (Hbody weightRatio).
    unfold displayed, useRatio. cbn [in_RATIO_KEYS is_bodyWeight negb andb].
    rewrite !andb_false_r. reflexivity.
Qed.

Lemma filter_insert {A} (cmp : A -> A -> Z) (P : A -> bool) (x : A) (l : list A) :
  (forall y, P x = true -> P y = true -> (cmp x y <= 0)%Z) ->
  filter P (insert cmp x l) = filter P (x :: l).
Proof.
  intros H. induction l as [| y l IH]; [reflexivity |]. cbn [insert].
  destruct (cmp x y <=? 0)%Z eqn:E; [reflexivity |].
  apply Z.leb_gt in E. cbn [filter] in *. rewrite IH.
  destruct (P x) eqn:Px; [| reflexivity].
  destruct (P y) eqn:Py; [| reflexivity].
  specialize (H y eq_refl Py). lia.
Qed.

Lemma filter_Array_sort {A} (cmp : A -> A -> Z) (P : A -> bool) (l : list A) :
  (forall x y, P x = true -> P y = true -> (cmp x y <= 0)%Z) ->
  filter P (Array_sort cmp l) = filter P l.
Proof.
  intros H. induction l as [| x l IH]; [reflexivity |]. cbn [Array_sort].
  rewrite filter_insert by (intros y; apply H). cbn [filter]. rewrite IH. reflexivity.
Qed.

Lemma filter_by_image {A B} (g : A -> B) (P : A -> bool) (Q : B -> bool)
    (l l' : list A) :
  (forall x, P x = Q (g x)) ->
  map g l = map g l' ->
  map g (filter P l) = map g (filter P l').
Proof.
  intros HP. revert l'. induction l as [| x l IH]; intros [| x' l'] E;
    try discriminate E; [reflexivity |].
  cbn [map] in E. injection E as Ex El. cbn [filter].
  rewrite (HP x), (HP x'), Ex. destruct (Q (g x')); cbn [map];
    [rewrite Ex; f_equal |]; apply IH, El.
Qed.

(** X6: the sort is stable on the rows: the rows whose timestamps parse to
    one and the same time, and likewise the rows whose timestamps do not
    parse, come out in the order in which they came in. *)
Theorem rows_of_one_time_keep_their_order :
  forall (legacy : string -> option Z) (rows : list LogRow) (k : option Z),
    filter (at_time legacy k) (Array_sort (by_time legacy) rows)
      = filter (at_time legacy k) rows /\
    map stamp (filter (at_time legacy k) (sortAndFillBpSqDl legacy rows))
      = map stamp (filter (at_time legacy k) rows).
Proof.
  intros legacy rows k.
  assert (Hsort : filter (at_time legacy k) (Array_sort (by_time legacy) rows)
                  = filter (at_time legacy k) rows).
  { apply filter_Array_sort. intros x y Hx Hy.
    unfold at_time in Hx, Hy. unfold by_time, time_diff.
    destruct (time_key legacy x) as [a |], (time_key legacy y) as [b |], k as [c |];
      try discriminate; lia. }
  split; [exact Hsort |].
  rewrite <- Hsort.
  apply (filter_by_image stamp _
           (fun p => match TimeRange.parseTimestamp legacy (fst p), k with
                     | Some a, Some b => (a =? b)%Z
                     | None, None => true
                     | _, _ => false
                     end)).
  - intros row. reflexivity.
  - apply fill_rows_stamps.
Qed.

End FillFacts.

(* ================================================================== *)
(** ** The vertical axis                                                *)
(* ================================================================== *)

Module AxisFacts.
Import ChartCard.
Local Open Scope list_scope.

Lemma filter_finite (values : list float) :
  Forall (fun x => is_finite x = true) (filter Number_isFinite values).
Proof.
  apply Forall_forall. intros x Hx. apply filter_In in Hx. apply Hx.
Qed.

Lemma domain_of_no_finite (values : list float) (padding : float) :
  (forall v, In v values -> Number_isFinite v = false) ->
  getDomainWithPadding values padding = (0, 100)%float.
Proof.
  intros Hnone. unfold getDomainWithPadding.
  destruct (filter Number_isFinite values) as [| x l] eqn:E; [reflexivity |].
  assert (Hx : In x (filter Number_isFinite values)) by (rewrite E; left; reflexivity).
  apply filter_In in Hx. destruct Hx as [Hin Hf].
  rewrite (Hnone x Hin) in Hf. discriminate Hf.
Qed.

Lemma domain_of_some_finite (values : list float) (padding v0 : float) :
  In v0 values -> Number_isFinite v0 = true ->
  exists lo hi,
    getDomainWithPadding values padding = (lo - padding, hi + padding)%float /\
    In lo values /\ Number_isFinite lo = true /\
    In hi values /\ Number_isFinite hi = true /\
    forall v, In v values -> Number_isFinite v = true ->
              (lo <=? v)%float = true /\ (v <=? hi)%float = true.
Proof.
  intros Hin0 Hf0. unfold getDomainWithPadding.
  pose proof (filter_finite values) as Hall.
  destruct (filter Number_isFinite values) as [| x l] eqn:E.
  - assert (H : In v0 (filter Number_isFinite values))
      by (apply filter_In; split; assumption).
    rewrite E in H. destruct H.
  - assert (Hne : x :: l <> []) by discriminate.
    destruct (FloatFacts.Math_min_finite (x :: l) Hne Hall) as [Hlo Hlo_le].
    destruct (FloatFacts.Math_max_finite (x :: l) Hne Hall) as [Hhi Hhi_le].
    exists (Math_min (x :: l)), (Math_max (x :: l)).
    split; [reflexivity |].
    assert (L : In (Math_min (x :: l)) values /\ Number_isFinite (Math_min (x :: l)) = true)
      by (apply filter_In; rewrite E; exact Hlo).
    assert (H : In (Math_max (x :: l)) values /\ Number_isFinite (Math_max (x :: l)) = true)
      by (apply filter_In; rewrite E; exact Hhi).
    destruct L as [L1 L2], H as [H1 H2].
    repeat split; try assumption.
    + apply Hlo_le. rewrite <- E. apply filter_In. split; assumption.
    + apply Hhi_le. rewrite <- E. apply filter_In. split; assumption.
Qed.

Lemma filter_again {A} (P : A -> bool) (l : list A) :
  filter P (filter P l) = filter P l.
Proof.
  induction l as [| x l IH]; [reflexivity |]. cbn [filter].
  destruct (P x) eqn:E; [| exact IH]. cbn [filter]. rewrite E, IH. reflexivity.
Qed.

(** X7: the axis range of a list of values is [0, 100] when none of them is
    finite, an empty list included; otherwise it runs from the smallest
    finite value less the padding to the largest finite value plus the
    padding, the two being values of the list that bound every finite
    value of it.  Values that are not finite (NaN, the infinities) have no
    part in it. *)
Theorem getDomainWithPadding_brackets_values :
  forall (values : list float) (padding : float),
    ((forall v, In v values -> Number_isFinite v = false) ->
     getDomainWithPadding values padding = (0, 100)%float) /\
    (forall v0,
       In v0 values -> Number_isFinite v0 = true ->
       exists lo hi,
         getDomainWithPadding values padding = (lo - padding, hi + padding)%float /\
         In lo values /\ Number_isFinite lo = true /\
         In hi values /\ Number_isFinite hi = true /\
         forall v, In v values -> Number_isFinite v = true ->
                   (lo <=? v)%float = true /\ (v <=? hi)%float = true) /\
    getDomainWithPadding values padding
      = getDomainWithPadding (filter Number_isFinite values) padding.
Proof.
  intros values padding. split; [| split].
  - apply domain_of_no_finite.
  - intros v0. apply domain_of_some_finite.
  - unfold getDomainWithPadding. rewrite filter_again. reflexivity.
Qed.

Lemma finite_values_In (l : list (option float)) (x : float) :
  In x (finite_values l) <-> In (Some x) l /\ Number_isFinite x = true.
Proof.
  induction l as [| [y |] l IH]; cbn [finite_values].
  - split; [intros [] | intros [[] _]].
  - destruct (Number_isFinite y) eqn:Fy.
    + cbn [In]. rewrite IH. split.
      * intros [<- | [H1 H2]]; [split; [left; reflexivity | exact Fy] |].
        split; [right; exact H1 | exact H2].
      * intros [[E | H1] H2]; [left; congruence | right; split; assumption].
    + rewrite IH. cbn [In]. split.
      * intros [H1 H2]. split; [right; exact H1 | exact H2].
      * intros [[E | H1] H2]; [| split; assumption].
        injection E as <-. rewrite H2 in Fy. discriminate Fy.
  - rewrite IH. cbn [In]. split.
    + intros [H1 H2]. split; [right; exact H1 | exact H2].
    + intros [[E | H1] H2]; [discriminate E | split; assumption].
Qed.

(** X8: the axis of a chart is computed from what its points display, the
    ratio in ratio mode and the field itself otherwise: it is [0, 100] when
    no point displays a finite number, as when there is no data at all, and
    otherwise runs from the smallest displayed
    number less the padding to the largest plus the padding, where the
    padding is 0.05 in ratio mode and otherwise 5 for the total, 2.5 for a
    lift and 1 for the body weight. *)
Theorem chart_domain_brackets_points :
  forall (legacy : string -> option Z) (dataKey : NumericDataKey)
         (weightRatio : bool) (rows : list LogRow),
    let points := chartData legacy dataKey weightRatio rows in
    let shown := displayed dataKey weightRatio in
    let padding := if useRatio dataKey weightRatio then 0.05%float
                   else match dataKey with
                        | key_total => 5%float
                        | key_bodyWeight => 1%float
                        | _ => 2.5%float
                        end in
    domain legacy dataKey weightRatio [] = (0, 100)%float /\
    ((forall pt x, In pt points -> shown pt = Some x -> Number_isFinite x = false) ->
     domain legacy dataKey weightRatio rows = (0, 100)%float) /\
    (forall pt0 x0,
       In pt0 points -> shown pt0 = Some x0 -> Number_isFinite x0 = true ->
       exists lo hi p q,
         domain legacy dataKey weightRatio rows = (lo - padding, hi + padding)%float /\
         In p points /\ shown p = Some lo /\ In q points /\ shown q = Some hi /\
         forall pt x, In pt points -> shown pt = Some x -> Number_isFinite x = true ->
                      (lo <=? x)%float = true /\ (x <=? hi)%float = true).
Proof.
  intros legacy dataKey weightRatio rows points shown padding.
  assert (Hpad : (if useRatio dataKey weightRatio then Y_PADDING_RATIO
                  else Y_PADDING_BY_KEY dataKey) = padding)
    by (subst padding; destruct (useRatio dataKey weightRatio), dataKey; reflexivity).
  assert (Hin : forall x, In x (finite_values (map shown points)) <->
                          (exists pt, In pt points /\ shown pt = Some x) /\
                          Number_isFinite x = true).
  { intros x. rewrite finite_values_In, in_map_iff. split.
    - intros [(pt & E & H) F]. split; [exists pt; split; assumption | exact F].
    - intros [(pt & H & E) F]. split; [exists pt; split; assumption | exact F]. }
  split; [reflexivity |].
  unfold domain. fold points. fold shown. rewrite Hpad.
  pose proof (domain_of_no_finite (finite_values (map shown points)) padding) as Hnone.
  pose proof (fun v0 => domain_of_some_finite (finite_values (map shown points)) padding v0)
    as Hsome.
  split.
  - intros H. apply Hnone. intros v Hv. apply Hin in Hv.
    destruct Hv as [(pt & Hpt & E) F]. rewrite (H pt v Hpt E) in F. discriminate F.
  - intros pt0 x0 Hpt0 E0 F0.
    destruct (Hsome x0) as (lo & hi & Hd & Hlo & _ & Hhi & _ & Hb);
      [apply Hin; split; [exists pt0; split; assumption | exact F0] | exact F0 |].
    apply Hin in Hlo, Hhi.
    destruct Hlo as [(p & Hp & Ep) _], Hhi as [(q & Hq & Eq) _].
    exists lo, hi, p, q. repeat split; try assumption;
      apply (Hb x); try assumption; apply Hin; (split; [exists pt; split |]); assumption.
Qed.

End AxisFacts.

(* ================================================================== *)
(** ** Dates in writing                                                 *)
(* ================================================================== *)

Module DateTextFacts.
Import TimeRange DecoderFacts ParseFacts.
Local Open Scope string_scope.

Lemma is_digit_digit_of (c : ascii) :
  is_digit c = true -> exists v, digit_of 10 c = Some v.
Proof.
  unfold is_digit, digit_of. intros H. apply andb_true_iff in H. destruct H as [H1 H2].
  apply Nat.leb_le in H1, H2.
  replace (48 <=? Z.of_nat (nat_of_ascii c))%Z with true by (symmetry; apply Z.leb_le; lia).
  replace (Z.of_nat (nat_of_ascii c) <=? 57)%Z with true by (symmetry; apply Z.leb_le; lia).
  cbn [andb].
  replace (Z.of_nat (nat_of_ascii c) - 48 <? 10)%Z with true by (symmetry; apply Z.ltb_lt; lia).
  eexists. reflexivity.
Qed.

Lemma digit_of_is_digit (c : ascii) (v : Z) :
  digit_of 10 c = Some v -> is_digit c = true.
Proof.
  unfold is_digit, digit_of.
  destruct ((48 <=? Z.of_nat (nat_of_ascii c))%Z && (Z.of_nat (nat_of_ascii c) <=? 57)%Z) eqn:E.
  - intros _. apply andb_true_iff in E. destruct E as [E1 E2].
    apply Z.leb_le in E1, E2. apply andb_true_iff. split; apply Nat.leb_le; lia.
  - destruct ((97 <=? Z.of_nat (nat_of_ascii c))%Z && (Z.of_nat (nat_of_ascii c) <=? 102)%Z) eqn:E2.
    + apply andb_true_iff in E2. destruct E2 as [A B]. apply Z.leb_le in A, B.
      replace (Z.of_nat (nat_of_ascii c) - 87 <? 10)%Z with false by (symmetry; apply Z.ltb_ge; lia).
      discriminate.
    + destruct ((65 <=? Z.of_nat (nat_of_ascii c))%Z && (Z.of_nat (nat_of_ascii c) <=? 70)%Z) eqn:E3; [| discriminate].
      apply andb_true_iff in E3. destruct E3 as [A B]. apply Z.leb_le in A, B.
      replace (Z.of_nat (nat_of_ascii c) - 55 <? 10)%Z with false by (symmetry; apply Z.ltb_ge; lia).
      discriminate.
Qed.

(** A digit is no other character. *)
Lemma digit_is_not (c d : ascii) :
  is_digit c = true -> is_digit d = false -> Ascii.eqb c d = false.
Proof.
  intros Hc Hd. apply Ascii.eqb_neq. intros ->. rewrite Hc in Hd. discriminate Hd.
Qed.

Lemma digit_is_no_blank (c : ascii) : is_digit c = true -> is_ws c = false.
Proof.
  unfold is_digit, is_ws. intros H. apply andb_true_iff in H. destruct H as [H1 H2].
  apply Nat.leb_le in H1, H2.
  apply orb_false_iff. split; [apply orb_false_iff; split |].
  - apply andb_false_iff. right. apply Nat.leb_gt. lia.
  - apply Nat.eqb_neq. lia.
  - apply Nat.eqb_neq. lia.
Qed.

Lemma trimEnd_solid (s : string) : ends_solid s = true -> trimEnd s = s.
Proof.
  induction s as [| c s IH]; [discriminate |]. cbn [ends_solid trimEnd].
  destruct s as [| d s'].
  - cbn [trimEnd]. intros H. apply negb_true_iff in H. rewrite H. reflexivity.
  - intros H. rewrite (IH H). reflexivity.
Qed.

Lemma trim_solid (c : ascii) (s : string) :
  is_ws c = false -> ends_solid (String c s) = true -> trim (String c s) = String c s.
Proof.
  intros Hc He. unfold trim. cbn [trimStart]. rewrite Hc. apply trimEnd_solid, He.
Qed.

Lemma read_digits_run (ds : string) (sep : ascii) (rest : string) :
  all_digits ds = true -> digit_of 10 sep = None ->
  forall acc cnt, exists acc',
    read_digits 10 (ds ++ String sep rest) acc cnt
    = (acc', (cnt + Z.of_nat (String.length ds))%Z, String sep rest).
Proof.
  intros Hds Hsep. induction ds as [| c ds IH]; intros acc cnt.
  - cbn [append read_digits String.length Z.of_nat]. rewrite Hsep. exists acc.
    rewrite Z.add_0_r. reflexivity.
  - cbn [all_digits] in Hds. apply andb_true_iff in Hds. destruct Hds as [Hc Hds].
    destruct (is_digit_digit_of c Hc) as [v Hv].
    cbn [append read_digits]. rewrite Hv.
    destruct (IH Hds (acc * 10 + v)%Z (cnt + 1)%Z) as [acc' E].
    exists acc'. rewrite E. cbn [String.length].
    replace (cnt + 1 + Z.of_nat (String.length ds))%Z with (cnt + Z.of_nat (S (String.length ds)))%Z by lia.
    reflexivity.
Qed.

(** Digits followed by a character that no number continues with. *)
Lemma parse_unsigned_decimal_dated (c : ascii) (ds : string) (sep : ascii) (rest : string) :
  is_digit c = true -> all_digits ds = true ->
  is_digit sep = false ->
  Ascii.eqb sep "." = false -> Ascii.eqb sep "e" = false -> Ascii.eqb sep "E" = false ->
  parse_unsigned_decimal (String c ds ++ String sep rest) = None.
Proof.
  intros Hc Hds Hsep Hdot He HE.
  assert (Hno : digit_of 10 sep = None).
  { destruct (digit_of 10 sep) as [v |] eqn:E; [| reflexivity].
    apply digit_of_is_digit in E. rewrite E in Hsep. discriminate Hsep. }
  assert (Hall : all_digits (String c ds) = true) by (cbn; rewrite Hc; exact Hds).
  destruct (read_digits_run (String c ds) sep rest Hall Hno 0%Z 0%Z) as [acc E].
  unfold parse_unsigned_decimal. rewrite E.
  assert (Hsep' : sep <> "."%char) by (apply Ascii.eqb_neq; exact Hdot).
  destruct sep as [[] [] [] [] [] [] [] []]; try congruence;
    cbn [String.length Z.of_nat];
    (replace (0 + Z.pos (Pos.of_succ_nat (String.length ds)) + 0 =? 0)%Z with false
       by (symmetry; apply Z.eqb_neq; lia));
    cbn in He, HE |- *; try discriminate; reflexivity.
Qed.

Lemma parse_signed_decimal_dated (c : ascii) (ds : string) (sep : ascii) (rest : string) :
  is_digit c = true -> all_digits ds = true ->
  is_digit sep = false ->
  Ascii.eqb sep "." = false -> Ascii.eqb sep "e" = false -> Ascii.eqb sep "E" = false ->
  parse_signed_decimal (String c ds ++ String sep rest) = nan.
Proof.
  intros Hc Hds Hsep Hdot He HE.
  assert (E := parse_unsigned_decimal_dated c ds sep rest Hc Hds Hsep Hdot He HE).
  unfold parse_signed_decimal.
  destruct c as [[] [] [] [] [] [] [] []]; try discriminate Hc;
    cbn [append] in E |- *; cbv beta iota zeta;
    cbn [String.eqb Ascii.eqb Bool.eqb]; rewrite E; reflexivity.
Qed.

Lemma ends_solid_app (s : string) (c : ascii) (rest : string) :
  ends_solid (String c rest) = true -> ends_solid (s ++ String c rest) = true.
Proof.
  intros H. induction s as [| d s IH]; [exact H |].
  cbn [append ends_solid]. destruct (s ++ String c rest) eqn:E; [| exact IH].
  destruct s; discriminate E.
Qed.

Lemma signed_dated_is_no_number (sg c : ascii) (ds : string) (sep : ascii) (rest : string) :
  sg = "+"%char \/ sg = "-"%char ->
  is_digit c = true -> all_digits ds = true ->
  is_digit sep = false ->
  Ascii.eqb sep "." = false -> Ascii.eqb sep "e" = false -> Ascii.eqb sep "E" = false ->
  ends_solid (String sep rest) = true ->
  StringToNumber (String sg (String c ds ++ String sep rest)) = nan.
Proof.
  intros Hsg Hc Hds Hsep Hdot He HE Hend.
  assert (E := parse_unsigned_decimal_dated c ds sep rest Hc Hds Hsep Hdot He HE).
  unfold StringToNumber.
  rewrite trim_solid.
  - unfold parse_signed_decimal.
    destruct Hsg as [-> | ->];
      destruct c as [[] [] [] [] [] [] [] []]; try discriminate Hc;
      cbn [append] in E |- *; cbv beta iota zeta;
      cbn [String.eqb Ascii.eqb Bool.eqb]; rewrite E; reflexivity.
  - destruct Hsg as [-> | ->]; reflexivity.
  - apply (ends_solid_app (String sg (String c ds))), Hend.
Qed.


Lemma dated_is_no_number (c1 c2 : ascii) (ds : string) (sep : ascii) (rest : string) :
  is_digit c1 = true -> is_digit c2 = true -> all_digits ds = true ->
  is_digit sep = false ->
  Ascii.eqb sep "." = false -> Ascii.eqb sep "e" = false -> Ascii.eqb sep "E" = false ->
  ends_solid (String sep rest) = true ->
  StringToNumber (String c1 (String c2 ds) ++ String sep rest) = nan.
Proof.
  intros H1 H2 Hds Hsep Hdot He HE Hend.
  assert (Hall : all_digits (String c2 ds) = true) by (cbn; rewrite H2; exact Hds).
  assert (E := parse_signed_decimal_dated c1 (String c2 ds) sep rest H1 Hall Hsep Hdot He HE).
  unfold StringToNumber. cbn [append] in E |- *.
  rewrite trim_solid.
  - assert (X : Ascii.eqb c2 "x" = false) by (apply digit_is_not; [exact H2 | reflexivity]).
    assert (X' : Ascii.eqb c2 "X" = false) by (apply digit_is_not; [exact H2 | reflexivity]).
    assert (O : Ascii.eqb c2 "o" = false) by (apply digit_is_not; [exact H2 | reflexivity]).
    assert (O' : Ascii.eqb c2 "O" = false) by (apply digit_is_not; [exact H2 | reflexivity]).
    assert (B : Ascii.eqb c2 "b" = false) by (apply digit_is_not; [exact H2 | reflexivity]).
    assert (B' : Ascii.eqb c2 "B" = false) by (apply digit_is_not; [exact H2 | reflexivity]).
    destruct c1 as [[] [] [] [] [] [] [] []]; try discriminate H1;
      cbv beta iota; rewrite ?X, ?X', ?O, ?O', ?B, ?B'; cbn [orb]; exact E.
  - apply digit_is_no_blank, H1.
  - apply (ends_solid_app (String c1 (String c2 ds))), Hend.
Qed.

Lemma parse_iso_date_length (s : string) :
  String.length s <> 10%nat -> parse_iso_date s = None.
Proof.
  intros H. unfold parse_iso_date.
  destruct s as [| y1 [| y2 [| y3 [| y4 [| c5 s]]]]]; try reflexivity.
  destruct c5 as [[] [] [] [] [] [] [] []]; try reflexivity.
  destruct s as [| m1 [| m2 [| c8 s]]]; try reflexivity.
  destruct c8 as [[] [] [] [] [] [] [] []]; try reflexivity.
  destruct s as [| d1 [| d2 [| c11 s]]]; try reflexivity.
  exfalso. apply H. reflexivity.
Qed.

Lemma digit_char_no_slash (d : Z) : Ascii.eqb (digit_char d) "/" = false.
Proof. apply digit_is_not; [apply digit_char_is_digit | reflexivity]. Qed.

Ltac as_dated :=
  match goal with
  | |- StringToNumber (String ?a (String ?b (String ?c (String ?d
         (String "-"%char ?rest))))) = _ =>
      apply (dated_is_no_number a b (String c (String d EmptyString)) "-"%char rest)
  | |- StringToNumber (String ?sg (String ?a (String ?b (String ?c (String ?d
         (String ?e (String ?f (String ?sep ?rest)))))))) = _ =>
      apply (signed_dated_is_no_number sg a
               (String b (String c (String d (String e (String f EmptyString)))))
               sep rest)
  end.

(** What the decoder writes for an epoch cell is no number, not the date-only
    form, and has nothing to trim or replace. *)
Lemma iso_string_shape (t : Z) :
  is_empty (toISOString t) = false /\
  trim (toISOString t) = toISOString t /\
  StringToNumber (toISOString t) = nan /\
  parse_iso_date (toISOString t) = None /\
  replace_slashes (toISOString t) = toISOString t.
Proof.
  assert (Hnum : StringToNumber (toISOString t) = nan).
  { unfold toISOString. destruct (civil_from_days (t / msPerDay)) as [[y m] d].
    destruct ((0 <=? y)%Z && (y <=? 9999)%Z); cbn [pad].
    - as_dated; cbn [all_digits]; rewrite ?digit_char_is_digit; reflexivity.
    - match goal with |- context [if ?b then "-"%char else "+"%char] => destruct b end;
        as_dated; cbn [all_digits]; rewrite ?digit_char_is_digit;
        first [reflexivity | right; reflexivity | left; reflexivity]. }
  assert (Hlen : String.length (toISOString t) <> 10%nat).
  { unfold toISOString. destruct (civil_from_days (t / msPerDay)) as [[y m] d].
    destruct ((0 <=? y)%Z && (y <=? 9999)%Z); cbn [pad String.length]; discriminate. }
  assert (Hrep : replace_slashes (toISOString t) = toISOString t).
  { unfold toISOString. destruct (civil_from_days (t / msPerDay)) as [[y m] d].
    destruct ((0 <=? y)%Z && (y <=? 9999)%Z); cbn [pad replace_slashes];
      rewrite !digit_char_no_slash; try reflexivity.
    match goal with |- context [if ?b then "-"%char else "+"%char] => destruct b end;
      reflexivity. }
  assert (Htrim : trim (toISOString t) = toISOString t).
  { unfold toISOString. destruct (civil_from_days (t / msPerDay)) as [[y m] d].
    destruct ((0 <=? y)%Z && (y <=? 9999)%Z); cbn [pad].
    - apply trim_solid; [apply digit_is_no_blank, digit_char_is_digit | reflexivity].
    - apply trim_solid; [| reflexivity].
      match goal with |- context [if ?b then "-"%char else "+"%char] => destruct b end;
        reflexivity. }
  repeat split; try assumption.
  - unfold toISOString. destruct (civil_from_days (t / msPerDay)) as [[y m] d].
    destruct ((0 <=? y)%Z && (y <=? 9999)%Z); reflexivity.
  - apply parse_iso_date_length, Hlen.
Qed.

Lemma iso_string_parse (legacy : string -> option Z) (t : Z) :
  parseTimestamp legacy (toISOString t) = legacy (toISOString t).
Proof.
  destruct (iso_string_shape t) as (He & Ht & Hn & Hd & Hr).
  unfold parseTimestamp. rewrite He, Ht, He, Hn.
  change (is_epoch nan) with false. cbv iota.
  unfold Date_parse. rewrite Hr, Hd.
  destruct (legacy (toISOString t)); reflexivity.
Qed.

Lemma StringToNumber_trim (s : string) : StringToNumber (trim s) = StringToNumber s.
Proof. unfold StringToNumber. rewrite trim_again. reflexivity. Qed.

(** X9: a cell whose value converts to a number in the epoch range is
    decoded to the ISO string of its time; that string is never read as a
    number again, nor as a date without a time: what the parser makes of
    it is what the engine's [Date.parse] makes of it.  When the cell holds
    a string, the parser gives that string itself the same time. *)
Theorem decoded_epoch_reads_back :
  forall (Number_toString : float -> string) (legacy : string -> option Z)
         (cell : GvizCell) (x : cell_value),
    raw_of cell = Some x -> is_epoch (ToNumber x) = true ->
    let t := truncZ (epoch_ms (ToNumber x)) in
    getCellTimestamp Number_toString (Some cell) = Some (toISOString t) /\
    parseTimestamp legacy (toISOString t) = legacy (toISOString t) /\
    (forall str, x = VString str -> parseTimestamp legacy str = Some t).
Proof.
  intros NT legacy cell x Hraw He t. split; [| split].
  - rewrite getCellTimestamp_cases, Hraw.
    destruct (is_empty_string x) eqn:Ex.
    + rewrite (empty_value_is_no_epoch x Ex) in He. discriminate He.
    + rewrite He. reflexivity.
  - apply iso_string_parse.
  - intros str ->. cbn [ToNumber] in He, t. subst t.
    rewrite <- (StringToNumber_trim str) in He |- *.
    apply parse_epoch_branch, He.
Qed.

Lemma decoded_epoch_reads_back_witness :
  getCellTimestamp (fun _ => EmptyString)
    (Some {| v := Some (VString "1700000000"); f := None |})
  = Some "2023-11-14T22:13:20.000Z".
Proof.
  exact (proj1 (decoded_epoch_reads_back (fun _ => EmptyString) strict_engine
                  {| v := Some (VString "1700000000"); f := None |}
                  (VString "1700000000") eq_refl eq_refl)).
Defined.

(** The strings the date-only reader accepts. *)
Lemma parse_iso_date_shape (u : string) (t : Z) :
  parse_iso_date u = Some t ->
  exists y1 y2 y3 y4 m1 m2 d1 d2,
    u = String y1 (String y2 (String y3 (String y4 (String "-"
          (String m1 (String m2 (String "-" (String d1 (String d2 EmptyString)))))))))
    /\ is_digit y1 = true /\ is_digit y2 = true /\ is_digit y3 = true
    /\ is_digit y4 = true /\ is_digit m1 = true /\ is_digit m2 = true
    /\ is_digit d1 = true /\ is_digit d2 = true
    /\ exists day, t = (day * msPerDay)%Z.
Proof.
  unfold parse_iso_date.
  destruct u as [| y1 [| y2 [| y3 [| y4 [| c5 u]]]]]; try discriminate.
  destruct c5 as [[] [] [] [] [] [] [] []]; try discriminate.
  destruct u as [| m1 [| m2 [| c8 u]]]; try discriminate.
  destruct c8 as [[] [] [] [] [] [] [] []]; try discriminate.
  destruct u as [| d1 [| d2 [| c11 u]]]; try discriminate.
  destruct (digit_of 10 y1) as [a |] eqn:E1; [| discriminate].
  destruct (digit_of 10 y2) as [b |] eqn:E2; [| discriminate].
  destruct (digit_of 10 y3) as [c |] eqn:E3; [| discriminate].
  destruct (digit_of 10 y4) as [e |] eqn:E4; [| discriminate].
  destruct (digit_of 10 m1) as [f |] eqn:E5; [| discriminate].
  destruct (digit_of 10 m2) as [g |] eqn:E6; [| discriminate].
  destruct (digit_of 10 d1) as [h |] eqn:E7; [| discriminate].
  destruct (digit_of 10 d2) as [i |] eqn:E8; [| discriminate].
  cbv zeta.
  match goal with |- (if ?b then _ else _) = _ -> _ => destruct b end; [| discriminate].
  intros H. injection H as <-.
  exists y1, y2, y3, y4, m1, m2, d1, d2.
  repeat split; eauto using digit_of_is_digit.
Qed.

Lemma replace_slashes_cons (w : string) (a : ascii) (r : string) :
  replace_slashes w = String a r ->
  exists a0 r0, w = String a0 r0 /\ replace_slashes r0 = r /\
    (if Ascii.eqb a0 "/" then "-"%char else a0) = a.
Proof.
  destruct w as [| a0 r0]; [discriminate |]. cbn [replace_slashes].
  intros H. injection H as Ha Hr. exists a0, r0. auto.
Qed.

Lemma replace_slashes_nil (w : string) :
  replace_slashes w = EmptyString -> w = EmptyString.
Proof. destruct w; [reflexivity | discriminate]. Qed.

Lemma replaced_digit (a0 a : ascii) :
  (if Ascii.eqb a0 "/" then "-"%char else a0) = a -> is_digit a = true -> a0 = a.
Proof.
  destruct (Ascii.eqb a0 "/"); intros <- H; [discriminate H | reflexivity].
Qed.

Lemma replaced_dash (a0 : ascii) :
  (if Ascii.eqb a0 "/" then "-"%char else a0) = "-"%char ->
  a0 = "/"%char \/ a0 = "-"%char.
Proof.
  destruct (Ascii.eqb_spec a0 "/"); [left; assumption | right; assumption].
Qed.

(** X10: a string that, trimmed and with its slashes replaced by dashes,
    is a date YYYY-MM-DD that exists, is never read as an epoch number and
    always parses: to what the engine's [Date.parse] makes of the trimmed
    string when it accepts it, and otherwise to midnight UTC of the date.
    Written with dashes, it parses to midnight UTC of the date whatever
    the engine. *)
Theorem dated_strings_parse :
  forall (legacy : string -> option Z) (s : string) (t : Z),
    parse_iso_date (replace_slashes (trim s)) = Some t ->
    parseTimestamp legacy s
    = Some (match Date_parse legacy (trim s) with Some t' => t' | None => t end) /\
    (replace_slashes (trim s) = trim s -> parseTimestamp legacy s = Some t) /\
    (legacy (trim s) = None -> parseTimestamp legacy s = Some t) /\
    exists day, t = (day * msPerDay)%Z.
Proof.
  intros legacy s t H.
  destruct (parse_iso_date_shape _ _ H)
    as (y1 & y2 & y3 & y4 & m1 & m2 & d1 & d2 & Hu & Hy1 & Hy2 & Hy3 & Hy4
        & Hm1 & Hm2 & Hd1 & Hd2 & Hday).
  assert (Hw : exists (s5 s8 : ascii),
             trim s = String y1 (String y2 (String y3 (String y4 (String s5
               (String m1 (String m2 (String s8 (String d1 (String d2 EmptyString)))))))))
             /\ (s5 = "/"%char \/ s5 = "-"%char)).
  { repeat match type of Hu with
           | replace_slashes ?w = String _ _ =>
               let a := fresh "a" in let r := fresh "r" in
               let E := fresh "E" in let R := fresh "R" in let C := fresh "C" in
               destruct (replace_slashes_cons _ _ _ Hu) as (a & r & E & R & C);
               clear Hu; rename R into Hu
           end.
    apply replace_slashes_nil in Hu.
    repeat match goal with
           | C : (if Ascii.eqb ?a0 "/" then "-"%char else ?a0) = ?a, D : is_digit ?a = true |- _ =>
               apply (fun C => replaced_digit _ _ C D) in C; subst a0
           end.
    subst.
    eexists _, _. split; [eassumption |]. apply replaced_dash. assumption. }
  destruct Hw as (s5 & s8 & Hw & Hs5).
  assert (Hnum : StringToNumber (trim s) = nan).
  { rewrite Hw.
    apply (dated_is_no_number y1 y2 (String y3 (String y4 EmptyString)) s5); try assumption.
    - cbn [all_digits]. rewrite Hy3, Hy4. reflexivity.
    - destruct Hs5 as [-> | ->]; reflexivity.
    - destruct Hs5 as [-> | ->]; reflexivity.
    - destruct Hs5 as [-> | ->]; reflexivity.
    - destruct Hs5 as [-> | ->]; reflexivity.
    - cbn [ends_solid]. rewrite (digit_is_no_blank _ Hd2). reflexivity. }
  assert (Hparse : parseTimestamp legacy s
                   = Some (match Date_parse legacy (trim s) with Some t' => t' | None => t end)).
  { unfold parseTimestamp.
    destruct (is_empty s) eqn:Es.
    { apply is_empty_eq in Es. subst s. discriminate Hw. }
    rewrite Hnum. change (is_epoch nan) with false.
    destruct (is_empty (trim s)) eqn:Et.
    { rewrite Hw in Et. discriminate Et. }
    cbv zeta iota.
    destruct (Date_parse legacy (trim s)) as [t' |]; [reflexivity |].
    unfold Date_parse. rewrite H. reflexivity. }
  split; [exact Hparse |]. split; [| split; [| exact Hday]].
  - intros Hsame. rewrite Hparse. unfold Date_parse. rewrite <- Hsame, H. reflexivity.
  - intros Hleg. rewrite Hparse. unfold Date_parse. rewrite Hleg.
    destruct (parse_iso_date (trim s)) as [t' |] eqn:E; [| reflexivity].
    destruct (parse_iso_date_shape _ _ E)
      as (z1 & z2 & z3 & z4 & n1 & n2 & e1 & e2 & Hz & _).
    assert (Hsame : replace_slashes (trim s) = trim s).
    { rewrite Hz in Hw. injection Hw as -> -> -> -> <- -> -> <- -> ->. rewrite Hz.
      cbn [replace_slashes].
      rewrite (digit_is_not y1 "/" Hy1 eq_refl), (digit_is_not y2 "/" Hy2 eq_refl),
        (digit_is_not y3 "/" Hy3 eq_refl), (digit_is_not y4 "/" Hy4 eq_refl),
        (digit_is_not m1 "/" Hm1 eq_refl), (digit_is_not m2 "/" Hm2 eq_refl),
        (digit_is_not d1 "/" Hd1 eq_refl), (digit_is_not d2 "/" Hd2 eq_refl).
      reflexivity. }
    rewrite Hsame, E in H. exact H.
Qed.

Lemma dated_strings_parse_witness :
  parseTimestamp strict_engine " 2024/01/05 " = Some 1704412800000%Z.
Proof.
  exact (proj1 (proj2 (proj2 (dated_strings_parse strict_engine " 2024/01/05 "
                                1704412800000%Z eq_refl))) eq_refl).
Defined.

End DateTextFacts.

(* ================================================================== *)
(** ** Rows of equal time in the summaries                              *)
(* ================================================================== *)

Module LatestFacts.
Import App SummaryFacts FillFacts.
Local Open Scope list_scope.

Lemma last_of_snoc {A} (l : list A) (x : A) : last_of (l ++ [x]) = Some x.
Proof.
  induction l as [| a l IH]; [reflexivity |].
  cbn [app last_of]. destruct (l ++ [x]) eqn:E; [destruct l; discriminate E | exact IH].
Qed.

Lemma last_of_split {A} (l : list A) (x : A) :
  last_of l = Some x -> exists pre, l = pre ++ [x].
Proof.
  induction l as [| a l IH]; [discriminate |].
  destruct l as [| b l'].
  - cbn. intros H. injection H as <-. exists []. reflexivity.
  - intros H. destruct (IH H) as [pre E]. exists (a :: pre). rewrite E. reflexivity.
Qed.

Lemma last_of_map {A B} (g : A -> B) (l : list A) :
  last_of (map g l) = option_map g (last_of l).
Proof.
  induction l as [| a l IH]; [reflexivity |].
  destruct l as [| b l']; [reflexivity | exact IH].
Qed.

Lemma has_weight_weighed (row : LogRow) :
  has_weight row = true <-> exists w, weighed row w.
Proof.
  unfold has_weight, weighed. destruct (bodyWeight row) as [bw |].
  - rewrite andb_true_iff. split.
    + intros [H1 H2]. exists bw. auto.
    + intros (w & E & H1 & H2). injection E as ->. auto.
  - split; [discriminate | intros (w & E & _); discriminate E].
Qed.

Lemma first_body_weight_skip (pre l : list (LogRow * Z)) :
  (forall row t w, In (row, t) pre -> ~ weighed row w) ->
  first_body_weight (pre ++ l) = first_body_weight l.
Proof.
  induction pre as [| [r t] pre IH]; intros H; [reflexivity |].
  cbn [app first_body_weight].
  assert (Hr : has_weight r = false).
  { destruct (has_weight r) eqn:E; [| reflexivity].
    apply has_weight_weighed in E. destruct E as [w Hw].
    exfalso. apply (H r t w); [left; reflexivity | exact Hw]. }
  unfold has_weight in Hr. destruct (bodyWeight r) as [bw |].
  - rewrite Hr. apply IH. intros row t' w Hin. apply (H row t' w). right. exact Hin.
  - apply IH. intros row t' w Hin. apply (H row t' w). right. exact Hin.
Qed.

Lemma first_body_weight_find (t : Z) (l : list LogRow) :
  first_body_weight (map (fun row => (row, t)) l)
  = match find has_weight l with
    | Some row => bodyWeight row
    | None => None
    end.
Proof.
  induction l as [| r l IH]; [reflexivity |].
  cbn [map first_body_weight find]. unfold has_weight at 1.
  destruct (bodyWeight r) as [bw |] eqn:E; [| exact IH].
  destruct (Number_isFinite bw && (0 <? bw)%float); [symmetry; exact E | exact IH].
Qed.

Section Engine.
Variable legacy : string -> option Z.

Lemma withDate_filter (t : Z) (rows : list LogRow) :
  filter (dated_at t) (withDate legacy rows)
  = map (fun row => (row, t)) (filter (at_time legacy (Some t)) rows).
Proof.
  induction rows as [| r rows IH]; [reflexivity |].
  cbn [withDate filter]. unfold at_time at 1, ChartCard.time_key.
  destruct (TimeRange.parseTimestamp legacy (timestamp r)) as [d |]; [| exact IH].
  cbn [filter]. unfold dated_at at 1. cbn [snd].
  destruct (d =? t)%Z eqn:E; [| exact IH].
  apply Z.eqb_eq in E. subst d. cbn [map]. rewrite IH. reflexivity.
Qed.
End Engine.

(** X11: among rows of one and the same time the two summaries choose by
    position, and not alike: the latest row is the last, in the order of
    the input, of the rows of the greatest time, while the latest body
    weight is that of the first, in the order of the input, of the rows
    with a body weight at the greatest time at which a row has one.  Of
    two rows of one date with body weights 70 and 72, the latest row is
    the second and the latest body weight is 70. *)
Theorem equal_times_break_by_position :
  forall (legacy : string -> option Z) (rows : list LogRow),
    (forall latest, getLatestRow legacy rows = Some latest ->
       exists t, ChartCard.time_key legacy latest = Some t /\
         (forall row t', In row rows -> ChartCard.time_key legacy row = Some t' ->
                         (t' <= t)%Z) /\
         last_of (filter (at_time legacy (Some t)) rows) = Some latest) /\
    (forall w, latestBodyWeight legacy rows = Some w ->
       exists t row,
         find has_weight (filter (at_time legacy (Some t)) rows) = Some row /\
         bodyWeight row = Some w /\
         forall row' t' w',
           In row' rows -> ChartCard.time_key legacy row' = Some t' -> weighed row' w' ->
           (t' <= t)%Z) /\
    (let a := log "2024-01-01" None None None (Some 70%float) in
     let b := log "2024-01-01" None None None (Some 72%float) in
     getLatestRow legacy [a; b] = Some b /\ latestBodyWeight legacy [a; b] = Some 70%float).
Proof.
  intros legacy rows. split; [| split].
  - intros latest H. unfold getLatestRow in H.
    destruct rows as [| r rest]; [discriminate H |].
    destruct (withDate legacy (r :: rest)) as [| x wd] eqn:E; [discriminate H |].
    rewrite <- E in H.
    destruct (last_of (Array_sort ascending (withDate legacy (r :: rest))))
      as [[row t] |] eqn:El; [| discriminate H].
    cbn [option_map fst] in H. injection H as <-.
    assert (Hin : In (row, t) (withDate legacy (r :: rest))).
    { apply (Permutation_in _ (SortFacts.Array_sort_perm ascending _)).
      apply last_of_In, El. }
    apply withDate_In in Hin. destruct Hin as [_ Ht].
    exists t. split; [exact Ht |]. split.
    { intros row' t' Hr' Ht'.
      assert (Hin' : In (row', t') (Array_sort ascending (withDate legacy (r :: rest)))).
      { apply (Permutation_in _ (Permutation_sym (SortFacts.Array_sort_perm ascending _))).
        apply withDate_In. split; assumption. }
      assert (Hs : StronglySorted (before ascending)
                     (Array_sort ascending (withDate legacy (r :: rest))))
        by (apply SortFacts.Array_sort_sorted; [apply ascending_total | apply ascending_trans]).
      pose proof (sorted_last_max ascending _ (row, t)
                    (fun a => match ascending_total a a with
                              | or_introl h | or_intror h => h
                              end)
                    Hs El _ Hin') as Hmax.
      unfold before, ascending in Hmax. cbn [snd] in Hmax. lia. }
    destruct (last_of_split _ _ El) as [pre Epre].
    assert (Hf : filter (dated_at t) (Array_sort ascending (withDate legacy (r :: rest)))
                 = filter (dated_at t) pre ++ [(row, t)]).
    { rewrite Epre, filter_app. cbn [filter]. unfold dated_at at 2. cbn [snd].
      rewrite Z.eqb_refl. reflexivity. }
    rewrite filter_Array_sort in Hf.
    2:{ intros p q Hp Hq. unfold dated_at in Hp, Hq. unfold ascending.
        apply Z.eqb_eq in Hp, Hq. lia. }
    rewrite withDate_filter in Hf.
    apply (f_equal last_of) in Hf. rewrite last_of_snoc, last_of_map in Hf.
    destruct (last_of (filter (at_time legacy (Some t)) (r :: rest))) as [row' |];
      [| discriminate Hf].
    cbn [option_map] in Hf. injection Hf as ->. reflexivity.
  - intros w Hw. unfold latestBodyWeight in Hw.
    set (dated := Array_sort descending (withDate legacy rows)) in *.
    assert (Hperm : Permutation dated (withDate legacy rows))
      by apply SortFacts.Array_sort_perm.
    assert (Hsorted : StronglySorted (before descending) dated)
      by (apply SortFacts.Array_sort_sorted; [apply descending_total | apply descending_trans]).
    destruct (first_body_weight_some dated w Hw)
      as (pre & row & t & post & Esplit & Hweighed & Hpre).
    assert (Hf : filter (dated_at t) dated
                 = filter (dated_at t) pre ++ (row, t) :: filter (dated_at t) post).
    { rewrite Esplit, filter_app. cbn [filter]. unfold dated_at at 2. cbn [snd].
      rewrite Z.eqb_refl. reflexivity. }
    unfold dated in Hf. rewrite filter_Array_sort in Hf.
    2:{ intros p q Hp Hq. unfold dated_at in Hp, Hq. unfold descending.
        apply Z.eqb_eq in Hp, Hq. lia. }
    rewrite withDate_filter in Hf.
    apply (f_equal first_body_weight) in Hf.
    rewrite first_body_weight_find, first_body_weight_skip in Hf.
    2:{ intros row' t' w' Hin. apply filter_In in Hin. apply (Hpre row' t' w'), Hin. }
    cbn [first_body_weight] in Hf.
    destruct Hweighed as (Ebw & Hfin & Hpos). rewrite Ebw, Hfin, Hpos in Hf.
    cbn [andb] in Hf.
    destruct (find has_weight (filter (at_time legacy (Some t)) rows)) as [found |] eqn:Ef;
      [| discriminate Hf].
    exists t, found. split; [exact Ef |]. split; [exact Hf |].
    intros row' t' w' Hr' Ht' Hw'.
    assert (Hd : In (row', t') dated).
    { apply (Permutation_in _ (Permutation_sym Hperm)). apply withDate_In.
      split; assumption. }
    rewrite Esplit in Hd, Hsorted. apply in_app_or in Hd.
    destruct Hd as [Hd | [E | Hd]].
    + exfalso. apply (Hpre row' t' w' Hd Hw').
    + injection E as _ <-. lia.
    + pose proof (sorted_app_later _ _ _ _ Hsorted) as Hlater.
      rewrite Forall_forall in Hlater. specialize (Hlater _ Hd).
      unfold before, descending in Hlater. cbn [snd] in Hlater. lia.
  - split; vm_compute; reflexivity.
Qed.

End LatestFacts.
